(** * setpass: the token lifecycle of the password-reset relay

    A shallow embedding of [setpass/api.py].  The rows of the [User] table are
    a list, the SQLAlchemy session is an explicit pair (committed table,
    working copy), Python exceptions are the [Raised] outcome of a small
    state-and-exception monad, and everything the process obtains from the
    outside (clock, uuid generator, keystone replies) is read from a [World]
    value that is handed to each call. *)

From stdpp Require Import base strings gmap list.
From Stdlib Require Import ZArith.

Module Setpass.

(** ** Exceptions

    The classes of [setpass.exception] raised in [api.py], followed by the
    library exceptions that can escape from the calls the module makes.  The
    classes of [setpass.exception] are taken to be unrelated to one another,
    so that an [except] clause catches exactly the class it names. *)
Inductive exn : Type :=
  | TokenNotFoundException
  | TokenExpiredException
  | WrongPinException
  | OpenStackError (message : string)
  | AccountLocked
  | KeyError (key : string)
  | ValueError
  | BadRequestKeyError (key : string)
  | KeystoneAuthError.

Inductive outcome (A : Type) : Type :=
  | Returned (a : A)
  | Raised (e : exn).
Arguments Returned {A} a.
Arguments Raised {A} e.

(** ** The data model *)

(** A row of [model.User].  [updated_at] is a [datetime]; it is kept as the
    number of microseconds since the epoch, the resolution of [datetime]. *)
Record User : Type := mkUser {
  user_id : string;
  token : string;
  pin : string;
  password : string;
  attempts : Z;
  updated_at : Z
}.

Definition set_attempts (n : Z) (u : User) : User :=
  mkUser (user_id u) (token u) (pin u) (password u) n (updated_at u).
Definition set_updated_at (t : Z) (u : User) : User :=
  mkUser (user_id u) (token u) (pin u) (password u) (attempts u) t.
Definition set_token (t : string) (u : User) : User :=
  mkUser (user_id u) t (pin u) (password u) (attempts u) (updated_at u).
Definition set_pin (p : string) (u : User) : User :=
  mkUser (user_id u) (token u) p (password u) (attempts u) (updated_at u).
Definition set_password_field (p : string) (u : User) : User :=
  mkUser (user_id u) (token u) (pin u) p (attempts u) (updated_at u).

(** The database as [model.db.session] sees it: [table] holds the committed
    rows, [session] the rows as the current unit of work has them.  Queries
    read [session] (SQLAlchemy flushes before it queries), [commit] copies it
    to [table].  A Python variable bound to a row is a reference into the
    session; it is modelled by the index of the row in [session]. *)
Record Db : Type := mkDb {
  table : list User;
  session : list User
}.

(** The options of [config.CONF] that [api.py] reads on the token paths. *)
Record Config : Type := mkConfig {
  max_attempts : Z;
  token_expiration : Z
}.

(** What keystone answers to [sess.post]: a response, or an exception of
    keystoneauth. *)
Inductive post_reply : Type :=
  | Responded (status_code : Z) (text : string)
  | PostRaised.

(** What keystone answers to [sess.get_token]. *)
Inductive get_token_reply : Type :=
  | GotToken
  | RaisedUnauthorized
  | RaisedOther.

(** The outside world during one call. *)
Record World : Type := mkWorld {
  utcnow : Z;
  uuid4 : string;
  sess_post : string → string → string → post_reply;
  sess_get_token : string → get_token_reply
}.

(** A Flask request, as far as the views read it.  [data] is the body of a
    [PUT /token/<user_id>]: either text that [json.loads] rejects, or a JSON
    object, kept as the dict [json.loads] returns.  Only objects whose members
    are strings are modelled, the type of the columns they are stored in. *)
Inductive body : Type :=
  | Malformed
  | JsonObject (members : gmap string string).

Record Request : Type := mkRequest {
  args : gmap string string;
  form : gmap string string;
  headers : gmap string string;
  data : body
}.

(** [flask.Response(response=..., status=...)] *)
Record Response : Type := mkResponse {
  response : string;
  status : Z
}.

(** ** The monad of a request: state [Db], exceptions [exn] *)
Definition py (A : Type) : Type := Db → outcome A * Db.

Definition ret {A} (a : A) : py A := λ db, (Returned a, db).
Definition raise {A} (e : exn) : py A := λ db, (Raised e, db).
Definition bind {A B} (m : py A) (k : A → py B) : py B :=
  λ db, match m db with
        | (Returned a, db') => k a db'
        | (Raised e, db') => (Raised e, db')
        end.
(** [try: m except: h] *)
Definition try_except {A} (m : py A) (h : exn → py A) : py A :=
  λ db, match m db with
        | (Returned a, db') => (Returned a, db')
        | (Raised e, db') => h e db'
        end.

#[global] Instance py_ret : MRet py := @ret.
#[global] Instance py_bind : MBind py := λ A B k m, bind m k.

(** ** The session *)

(** [model.db.session.commit()] *)
Definition commit : py unit :=
  λ db, (Returned (), mkDb (session db) (session db)).

(** [model.db.session.delete(user)] *)
Definition session_delete (user : nat) : py unit :=
  λ db, (Returned (), mkDb (table db) (delete user (session db))).

(** [model.db.session.add(user)]; the handle of the new row is returned. *)
Definition session_add (u : User) : py nat :=
  λ db, (Returned (length (session db)), mkDb (table db) (session db ++ [u])).

(** An assignment to attributes of the row [user]. *)
Definition update_row (f : User → User) (user : nat) : py unit :=
  λ db, (Returned (), mkDb (table db) (alter f user (session db))).

(** Modelled from the spec: [model.User.find], of [setpass/model.py], which
    is not among the sources.  The spec gives [findByToken(token) -> Reset
    Request | absent] and [findByUserId(user_id) -> Reset Request | absent];
    the first row with the given key is returned, with its handle. *)
Definition User_find_token (t : string) : py (option (nat * User)) :=
  λ db, (Returned (list_find (λ u, token u = t) (session db)), db).
Definition User_find_user_id (uid : string) : py (option (nat * User)) :=
  λ db, (Returned (list_find (λ u, user_id u = uid) (session db)), db).

(** Modelled from the spec: the constructor [model.User(user_id, token, pin,
    password)], of [setpass/model.py].  The spec has [attempts] start at 0 and
    [updated_at] set at creation. *)
Definition User_new (now : Z) (uid tok p pw : string) : User :=
  mkUser uid tok p pw 0 now.

(** Modelled from the spec: [User.update_timestamp_and_attempts], of
    [setpass/model.py]: re-provisioning always resets [attempts] to 0 and
    refreshes [updated_at]. *)
Definition update_timestamp_and_attempts (now : Z) (u : User) : User :=
  set_attempts 0 (set_updated_at now u).

Section Api.

Variable CONF : Config.
Variable world : World.

(** [_set_openstack_password(user_id, old_password, new_password)] *)
Definition _set_openstack_password (uid old_password new_password : string)
  : py bool :=
  match sess_post world uid old_password new_password with
  | PostRaised => raise KeystoneAuthError
  | Responded status_code text =>
      if decide (200 ≤ status_code ∧ status_code < 300)%Z
      then ret true
      else raise (OpenStackError text)
  end.

(** [_check_admin_token(token)] *)
Definition _check_admin_token (tok : string) : py bool :=
  match sess_get_token world tok with
  | GotToken => ret true
  | RaisedUnauthorized => ret false
  | RaisedOther => raise KeystoneAuthError
  end.

(** [_increase_attempts(user)] *)
Definition _increase_attempts (user : nat) : py unit :=
  update_row (λ u, set_attempts (attempts u + 1) u) user;;
  commit.

(** [delta.total_seconds() > seconds] for [delta] the difference of two
    datetimes and [seconds] an integer.  [total_seconds] is the quotient of
    the microseconds by 10^6; the comparison is made on the exact quotient
    (the float that Python computes is exact to the microsecond for intervals
    under 270 years). *)
Definition total_seconds_gt (delta_us seconds : Z) : Prop :=
  (delta_us > seconds * 1000000)%Z.
#[global] Instance total_seconds_gt_dec d s : Decision (total_seconds_gt d s).
Proof. unfold total_seconds_gt. apply _. Defined.

(** [_set_password(token, pin, password)] *)
Definition _set_password (tok p new_password : string) : py unit :=
  found ← User_find_token tok;
  match found with
  | None => raise TokenNotFoundException
  | Some (user, u) =>
      if decide (attempts u > max_attempts CONF)%Z then raise AccountLocked
      else if decide (p ≠ pin u) then
        _increase_attempts user;;
        raise WrongPinException
      else
        let delta := (utcnow world - updated_at u)%Z in
        if decide (total_seconds_gt delta (token_expiration CONF))
        then raise TokenExpiredException
        else
          _set_openstack_password (user_id u) (password u) new_password;;
          session_delete user;;
          commit
  end.

(** Python's [not x] for [x] a string or [None]. *)
Definition not_ (x : option string) : bool :=
  match x with
  | None => true
  | Some s => bool_decide (s = EmptyString)
  end.

(** [request.form[key]]: werkzeug raises [BadRequestKeyError] for a missing
    field. *)
Definition form_item (request : Request) (key : string) : py string :=
  match form request !! key with
  | Some v => mret v
  | None => raise (BadRequestKeyError key)
  end.

(** [payload[key]] on a dict *)
Definition payload_item (payload : gmap string string) (key : string)
  : py string :=
  match payload !! key with
  | Some v => mret v
  | None => raise (KeyError key)
  end.

(** [json.loads(request.data)] *)
Definition json_loads (b : body) : py (gmap string string) :=
  match b with
  | Malformed => raise ValueError
  | JsonObject members => mret members
  end.

(** The [except] clauses of [set_password], in their order: each returns a
    response; an exception that none of them names propagates. *)
Definition set_password_except (e : exn) : outcome Response :=
  match e with
  | TokenNotFoundException => Returned (mkResponse "Token not found" 404)
  | TokenExpiredException => Returned (mkResponse "Token expired" 403)
  | WrongPinException => Returned (mkResponse "Wrong pin" 403)
  | OpenStackError message => Returned (mkResponse message 500)
  | AccountLocked =>
      Returned (mkResponse "Account locked, too many wrong attempts!" 403)
  | _ => Raised e
  end.

(** The view [set_password()], [POST /].  The [return] that follows the [try]
    statement is reached only when [_set_password] has returned; it is placed
    after the call. *)
Definition set_password (request : Request) : py Response :=
  let tok := args request !! "token" in
  new_password ← form_item request "password";
  confirm_password ← form_item request "confirm_password";
  p ← form_item request "pin";
  if not_ tok || not_ (Some new_password) || not_ (Some confirm_password)
     || not_ (Some p)
  then mret (mkResponse "Missing required field!" 400)
  else if decide (new_password ≠ confirm_password)
  then mret (mkResponse "Passwords do not match" 400)
  else
    try_except
      (_set_password (default EmptyString tok) p new_password;;
       mret (mkResponse "Password set." 200))
      (λ e db, (set_password_except e, db)).

(** The view [add(user_id)], [PUT /token/<user_id>]. *)
Definition add (request : Request) (uid : string) : py Response :=
  let tok := headers request !! "x-auth-token" in
  if not_ tok then mret (mkResponse "Unauthorized" 401)
  else
    is_admin ← _check_admin_token (default EmptyString tok);
    if negb is_admin then mret (mkResponse "Forbidden" 403)
    else
      payload ← json_loads (data request);
      found ← User_find_user_id uid;
      match found with
      | Some (user, _) =>
          match payload !! "pin" with
          | Some v => update_row (set_pin v) user
          | None => mret ()
          end;;
          match payload !! "password" with
          | Some v => update_row (set_password_field v) user
          | None => mret ()
          end;;
          let new_token := uuid4 world in
          update_row (set_token new_token) user;;
          update_row (update_timestamp_and_attempts (utcnow world)) user;;
          commit;;
          mret (mkResponse new_token 200)
      | None =>
          let new_token := uuid4 world in
          p ← payload_item payload "pin";
          pw ← payload_item payload "password";
          session_add (User_new (utcnow world) uid new_token p pw);;
          commit;;
          mret (mkResponse new_token 200)
      end.

End Api.

(** ** The request for a reset by the helpdesk *)

(** The keyword arguments of [_notify_helpdesk(name=..., username=...,
    pin=...)] as [reset_password] passes them. *)
Record Ticket : Type := mkTicket {
  ticket_name : string;
  ticket_username : string;
  ticket_pin : string
}.

Section Reset.

(** Python decides [str.isdigit] character by character from the Unicode
    database; the property of a single character is left open. *)
Variable isdigit_char : Ascii.ascii → bool.

(** [_notify_helpdesk] reads the template file, formats the message and
    sends it through SMTP; none of it touches the state of the process.  Of
    the call the model keeps its arguments and how it ends: it returns, or an
    exception of [open], [format] or [smtplib] escapes. *)
Variable _notify_helpdesk : Ticket → outcome unit.

(** [s.isdigit()]: every character is a digit and there is at least one. *)
Definition isdigit (s : string) : bool :=
  match s with
  | EmptyString => false
  | _ => forallb isdigit_char (String.list_ascii_of_string s)
  end.

(** The view [reset_password()], [POST /reset].  Beside the outcome, the calls
    of [_notify_helpdesk] made on the way are returned, in order. *)
Definition reset_password (request : Request)
  : list Ticket * outcome Response :=
  match form request !! "name" with
  | None => ([], Raised (BadRequestKeyError "name"))
  | Some name =>
  match form request !! "email" with
  | None => ([], Raised (BadRequestKeyError "email"))
  | Some email =>
  match form request !! "confirm_email" with
  | None => ([], Raised (BadRequestKeyError "confirm_email"))
  | Some confirm_email =>
  match form request !! "pin" with
  | None => ([], Raised (BadRequestKeyError "pin"))
  | Some p =>
      if not_ (Some name) || not_ (Some email) || not_ (Some confirm_email)
         || not_ (Some p)
      then ([], Returned (mkResponse "Missing required field!" 400))
      else if decide (email ≠ confirm_email)
      then ([], Returned (mkResponse "Email addresses do not match." 400))
      else if negb (String.length p =? 4)%nat || negb (isdigit p)
      then ([], Returned (mkResponse "Pin should be 4-digit number" 400))
      else
        let ticket := mkTicket name email p in
        match _notify_helpdesk ticket with
        | Raised e => ([ticket], Raised e)
        | Returned _ =>
            ([ticket],
             Returned
               (mkResponse "The request has been forwarded to the helpdesk."
                           200))
        end
  end end end end.

End Reset.

(** ** Sequences of calls *)

(** The calls of [calls], one after the other, on the database each one
    leaves behind; the outcomes are collected in order. *)
Fixpoint run {A} (calls : list (py A)) (db : Db) : list (outcome A) * Db :=
  match calls with
  | [] => ([], db)
  | call :: rest =>
      let '(o, db') := call db in
      let '(os, db'') := run rest db' in
      (o :: os, db'')
  end.

(** One redemption attempt, as it reaches [_set_password]: the clock and
    keystone of that moment, the PIN and the new password. *)
Record Attempt : Type := mkAttempt {
  at_world : World;
  at_pin : string;
  at_password : string
}.

Definition redeem (CONF : Config) (tok : string) (a : Attempt) : py unit :=
  _set_password CONF (at_world a) tok (at_pin a) (at_password a).

(** The request of a browser that submits the password form for [tok]. *)
Definition redeem_request (tok p new_password : string) : Request :=
  mkRequest {[ "token" := tok ]}
            {[ "password" := new_password;
               "confirm_password" := new_password;
               "pin" := p ]}
            ∅ Malformed.

(** The same attempt as it arrives over HTTP. *)
Definition submit (CONF : Config) (tok : string) (a : Attempt) : py Response :=
  set_password CONF (at_world a)
               (redeem_request tok (at_pin a) (at_password a)).

(** What [set_password] answers for an outcome of [_set_password]. *)
Definition answer (o : outcome unit) : outcome Response :=
  match o with
  | Returned _ => Returned (mkResponse "Password set." 200)
  | Raised e => set_password_except e
  end.

(** The form of the attempt has a PIN and a password. *)
Definition filled (a : Attempt) : Prop := at_pin a ≠ EmptyString ∧ at_password a ≠ EmptyString.

(** ** Invariants of the table *)

(** [token] is unique among the rows, and so is the primary key [user_id].
    The model does not enforce the constraints of the table; where a
    statement depends on them they are hypotheses, and the lemmas at the end
    show that the calls keep them. *)
Definition unique_tokens (rows : list User) : Prop := NoDup (token <$> rows).
Definition unique_user_ids (rows : list User) : Prop := NoDup (user_id <$> rows).

(** The record is locked: the test of [_set_password]. *)
Definition locked (CONF : Config) (u : User) : Prop :=
  (attempts u > max_attempts CONF)%Z.

(** The record is expired at the time of [w]. *)
Definition expired (CONF : Config) (w : World) (u : User) : Prop :=
  total_seconds_gt (utcnow w - updated_at u) (token_expiration CONF).

#[global] Instance locked_dec CONF u : Decision (locked CONF u).
Proof. unfold locked. apply _. Defined.
#[global] Instance expired_dec CONF w u : Decision (expired CONF w u).
Proof. unfold expired. apply _. Defined.

(** The attempts counter of the record of [uid], if there is one. *)
Definition attempts_of (uid : string) (db : Db) : option Z :=
  (λ '(_, u), attempts u) <$> list_find (λ u, user_id u = uid) (session db).

(** The row with its [attempts] incremented. *)
Definition failed_attempt (u : User) : User :=
  set_attempts (attempts u + 1) u.

(** The reply of keystone to the password change is a 2xx response. *)
Definition post_succeeds (w : World) (u : User) (new_password : string) : Prop :=
  ∃ status_code text,
    sess_post w (user_id u) (password u) new_password
    = Responded status_code text
    ∧ (200 ≤ status_code ∧ status_code < 300)%Z.

(** The row [u] after a provisioning with body [payload] at the time of [w]. *)
Definition reprovisioned (w : World) (payload : gmap string string) (u : User)
  : User :=
  mkUser (user_id u) (uuid4 w)
         (default (pin u) (payload !! "pin"))
         (default (password u) (payload !! "password"))
         0 (utcnow w).

(** The paths through [_set_password], one constructor for each way the
    function is left: the outcome and the database it leaves behind. *)
Inductive redeemed (CONF : Config) (w : World) (tok p new_password : string)
    (db : Db) : outcome unit → Db → Prop :=
  | redeemed_not_found :
      list_find (λ u, token u = tok) (session db) = None →
      redeemed CONF w tok p new_password db (Raised TokenNotFoundException) db
  | redeemed_locked user u :
      list_find (λ u, token u = tok) (session db) = Some (user, u) →
      locked CONF u →
      redeemed CONF w tok p new_password db (Raised AccountLocked) db
  | redeemed_wrong_pin user u :
      list_find (λ u, token u = tok) (session db) = Some (user, u) →
      ¬ locked CONF u → p ≠ pin u →
      redeemed CONF w tok p new_password db (Raised WrongPinException)
               (mkDb (alter failed_attempt user (session db))
                     (alter failed_attempt user (session db)))
  | redeemed_expired user u :
      list_find (λ u, token u = tok) (session db) = Some (user, u) →
      ¬ locked CONF u → p = pin u → expired CONF w u →
      redeemed CONF w tok p new_password db (Raised TokenExpiredException) db
  | redeemed_post_raised user u :
      list_find (λ u, token u = tok) (session db) = Some (user, u) →
      ¬ locked CONF u → p = pin u → ¬ expired CONF w u →
      sess_post w (user_id u) (password u) new_password = PostRaised →
      redeemed CONF w tok p new_password db (Raised KeystoneAuthError) db
  | redeemed_post_refused user u status_code text :
      list_find (λ u, token u = tok) (session db) = Some (user, u) →
      ¬ locked CONF u → p = pin u → ¬ expired CONF w u →
      sess_post w (user_id u) (password u) new_password
      = Responded status_code text →
      ¬ (200 ≤ status_code ∧ status_code < 300)%Z →
      redeemed CONF w tok p new_password db (Raised (OpenStackError text)) db
  | redeemed_done user u :
      list_find (λ u, token u = tok) (session db) = Some (user, u) →
      ¬ locked CONF u → p = pin u → ¬ expired CONF w u →
      post_succeeds w u new_password →
      redeemed CONF w tok p new_password db (Returned ())
               (mkDb (delete user (session db)) (delete user (session db))).

Ltac py_unfold :=
  unfold _set_password, _increase_attempts, _set_openstack_password,
    _check_admin_token, User_find_token, User_find_user_id, update_row,
    session_delete, session_add, commit, json_loads, payload_item, form_item,
    try_except, set_password, add, mbind, py_bind, mret, py_ret, bind, ret,
    raise; simpl.

(** ** A small instance

    A configuration, a world and a table with three records, on which the
    statements below are also evaluated. *)
Module Example.

Definition CONF : Config := mkConfig 2 3600.

(** Keystone accepts the password change and the admin token ["admin"]. *)
Definition keystone (now : Z) : World :=
  mkWorld now "T-new"
          (λ _ _ _, Responded 204 "No Content")
          (λ t, if decide (t = "admin") then GotToken else RaisedUnauthorized).

(** Keystone redirects instead of changing the password, and its token
    check fails with an error other than [Unauthorized]. *)
Definition keystone_away (now : Z) : World :=
  mkWorld now "T-new"
          (λ _ _ _, Responded 300 "Multiple Choices")
          (λ _, RaisedOther).

Definition alice : User := mkUser "alice" "T-alice" "1234" "old-a" 0 0.
Definition bob : User := mkUser "bob" "T-bob" "4321" "old-b" 3 0.
Definition carol : User := mkUser "carol" "T-carol" "0000" "old-c" 2 0.

Definition rows : list User := [alice; bob; carol].
Definition db : Db := mkDb rows rows.

(** One second past the expiry of a record updated at time 0. *)
Definition late : Z := 3601000000.

Definition wrong (now : Z) : Attempt := mkAttempt (keystone now) "9999" "new".
Definition right (now : Z) : Attempt := mkAttempt (keystone now) "1234" "new".

Definition put (members : gmap string string) : Request :=
  mkRequest ∅ ∅ {[ "x-auth-token" := "admin" ]} (JsonObject members).

(** The digits of ASCII, and a helpdesk whose mail goes out. *)
Definition ascii_digit (c : Ascii.ascii) : bool :=
  (48 <=? Ascii.nat_of_ascii c)%nat && (Ascii.nat_of_ascii c <=? 57)%nat.
Definition helpdesk (t : Ticket) : outcome unit := Returned ().

Definition reset_form (name email confirm_email p : string) : Request :=
  mkRequest ∅
            {[ "name" := name; "email" := email;
               "confirm_email" := confirm_email; "pin" := p ]}
            ∅ Malformed.

End Example.

(** * Properties *)

(** ** Looking rows up by a unique key *)
Section Keys.

Context {K : Type} `{EqDecision K} (key : User → K).

Lemma find_unique (l : list User) i u :
  NoDup (key <$> l) → l !! i = Some u →
  list_find (λ x, key x = key u) l = Some (i, u).
Proof.
  intros Hnd Hi. apply list_find_Some. split_and!; [done..|].
  intros j y Hj Hlt Heq.
  assert (i = j) as ->; [|lia].
  eapply (NoDup_lookup _ _ _ (key u) Hnd); rewrite list_lookup_fmap.
  - by rewrite Hi.
  - by rewrite Hj; simpl; rewrite Heq.
Qed.

Lemma find_delete_unique (l : list User) i u :
  NoDup (key <$> l) → l !! i = Some u →
  list_find (λ x, key x = key u) (delete i l) = None.
Proof.
  intros Hnd Hi. apply list_find_None, Forall_lookup. intros j y Hj Heq.
  assert (∀ k, l !! k = Some y → k = i) as Hsame.
  { intros k Hk. eapply (NoDup_lookup _ _ _ (key u) Hnd);
      rewrite list_lookup_fmap; [rewrite Hk; simpl; by rewrite Heq|by rewrite Hi]. }
  destruct (decide (j < i)) as [Hlt|Hge].
  - rewrite list_lookup_delete_lt in Hj by done. apply Hsame in Hj. lia.
  - rewrite list_lookup_delete_ge in Hj by lia. apply Hsame in Hj. lia.
Qed.

(** A change of a row that keeps its key does not move what the key finds. *)
Lemma find_alter (f : User → User) (k : K) (l : list User) i :
  (∀ x, key (f x) = key x) →
  list_find (λ x, key x = k) (alter f i l)
  = (λ '(j, x), (j, if decide (j = i) then f x else x))
      <$> list_find (λ x, key x = k) l.
Proof.
  intros Hf. apply option_eq. intros [j y].
  rewrite fmap_Some, list_find_Some. split.
  - intros (Hj & Hy & Hleast).
    rewrite list_lookup_alter in Hj. destruct (decide (i = j)) as [->|Hne].
    + apply fmap_Some in Hj as (x & Hx & ->). exists (j, x).
      rewrite decide_True by done. split; [|done].
      apply list_find_Some. split_and!; [done|by rewrite <-Hf|].
      intros j' z Hj' Hlt. apply (Hleast j' z); [|done].
      by rewrite list_lookup_alter_ne by lia.
    + exists (j, y). rewrite decide_False by done. split; [|done].
      apply list_find_Some. split_and!; [done..|]. intros j' z Hj' Hlt.
      destruct (decide (i = j')) as [->|Hne'].
      * rewrite <-Hf. apply (Hleast j' (f z)); [|done].
        by rewrite list_lookup_alter_eq, Hj'.
      * apply (Hleast j' z); [|done]. by rewrite list_lookup_alter_ne.
  - intros ([j' x] & (Hj & Hx & Hleast)%list_find_Some & [= -> ->]).
    split_and!.
    + rewrite list_lookup_alter. destruct (decide (i = j')) as [->|Hne].
      * by rewrite decide_True, Hj by done.
      * by rewrite decide_False by done.
    + case_decide; [by rewrite Hf|done].
    + intros j z Hz Hlt. rewrite list_lookup_alter in Hz.
      destruct (decide (i = j)) as [->|Hne].
      * apply fmap_Some in Hz as (z' & Hz' & ->). rewrite Hf. eauto.
      * eauto.
Qed.

(** With a unique key, what is found after a deletion was found before. *)
Lemma find_delete_Some (k : K) (l : list User) i j y :
  NoDup (key <$> l) →
  list_find (λ x, key x = k) (delete i l) = Some (j, y) →
  ∃ j', list_find (λ x, key x = k) l = Some (j', y).
Proof.
  intros Hnd (Hj & <- & _)%list_find_Some.
  destruct (decide (j < i)) as [Hlt|Hge].
  - rewrite list_lookup_delete_lt in Hj by done. eauto using find_unique.
  - rewrite list_lookup_delete_ge in Hj by lia. eauto using find_unique.
Qed.

End Keys.

(** The table of the instance satisfies the invariants. *)
Lemma example_unique_tokens : unique_tokens (session Example.db).
Proof. unfold unique_tokens. compute_done. Qed.

Lemma example_unique_user_ids : unique_user_ids (session Example.db).
Proof. unfold unique_user_ids. compute_done. Qed.

(** ** The paths of [_set_password] *)

Section Redemption.

Context (CONF : Config) (w : World) (tok p new_password : string) (db : Db).

Lemma set_password_not_found :
  list_find (λ u, token u = tok) (session db) = None →
  _set_password CONF w tok p new_password db
  = (Raised TokenNotFoundException, db).
Proof. intros Hfind. py_unfold. by rewrite Hfind. Qed.

Context (user : nat) (u : User).
Context (Hfind : list_find (λ u, token u = tok) (session db) = Some (user, u)).

Lemma set_password_locked :
  locked CONF u →
  _set_password CONF w tok p new_password db = (Raised AccountLocked, db).
Proof using Hfind.
  intros Hlocked. py_unfold. rewrite Hfind. by rewrite decide_True.
Qed.

Lemma set_password_wrong_pin :
  ¬ locked CONF u → p ≠ pin u →
  _set_password CONF w tok p new_password db
  = (Raised WrongPinException,
     mkDb (alter failed_attempt user (session db))
          (alter failed_attempt user (session db))).
Proof using Hfind.
  intros Hopen Hpin. py_unfold. rewrite Hfind.
  by rewrite decide_False, decide_True.
Qed.

Lemma set_password_expired :
  ¬ locked CONF u → p = pin u → expired CONF w u →
  _set_password CONF w tok p new_password db
  = (Raised TokenExpiredException, db).
Proof using Hfind.
  intros Hopen Hpin Hexp. py_unfold. rewrite Hfind.
  rewrite decide_False, decide_False by (done || eauto).
  by rewrite decide_True.
Qed.

Lemma set_password_post_raised :
  ¬ locked CONF u → p = pin u → ¬ expired CONF w u →
  sess_post w (user_id u) (password u) new_password = PostRaised →
  _set_password CONF w tok p new_password db = (Raised KeystoneAuthError, db).
Proof using Hfind.
  intros Hopen Hpin Hexp Hpost. py_unfold. rewrite Hfind.
  rewrite decide_False, decide_False by (done || eauto).
  rewrite decide_False by done. by rewrite Hpost.
Qed.

Lemma set_password_post_refused status_code text :
  ¬ locked CONF u → p = pin u → ¬ expired CONF w u →
  sess_post w (user_id u) (password u) new_password
  = Responded status_code text →
  ¬ (200 ≤ status_code ∧ status_code < 300)%Z →
  _set_password CONF w tok p new_password db
  = (Raised (OpenStackError text), db).
Proof using Hfind.
  intros Hopen Hpin Hexp Hpost Hcode. py_unfold. rewrite Hfind.
  rewrite decide_False, decide_False by (done || eauto).
  rewrite decide_False by done. rewrite Hpost. by rewrite decide_False.
Qed.

Lemma set_password_done :
  ¬ locked CONF u → p = pin u → ¬ expired CONF w u →
  post_succeeds w u new_password →
  _set_password CONF w tok p new_password db
  = (Returned (),
     mkDb (delete user (session db)) (delete user (session db))).
Proof using Hfind.
  intros Hopen Hpin Hexp (status_code & text & Hpost & Hcode).
  py_unfold. rewrite Hfind.
  rewrite decide_False, decide_False by (done || eauto).
  rewrite decide_False by done. rewrite Hpost. by rewrite decide_True.
Qed.

End Redemption.

(** ** Redemption *)

(** C1: a stored request whose token is redeemed with the correct PIN, with
    [attempts] not above [max_attempts], before expiry and with keystone
    accepting the change, is redeemed: the call returns, the record is deleted
    (from the session and from the committed table), and any second
    redemption with the same token raises [TokenNotFoundException]. *)
Theorem redeem_once CONF w db user u new_password :
  unique_tokens (session db) →
  session db !! user = Some u →
  (attempts u ≤ max_attempts CONF)%Z →
  ¬ expired CONF w u →
  post_succeeds w u new_password →
  ∃ db',
    _set_password CONF w (token u) (pin u) new_password db = (Returned (), db')
    ∧ session db' = delete user (session db)
    ∧ table db' = delete user (session db)
    ∧ (u ∉ table db')
    ∧ (∀ w' p' new_password',
         _set_password CONF w' (token u) p' new_password' db'
         = (Raised TokenNotFoundException, db')).
Proof.
  intros Huniq Hrow Hopen Hexp Hpost.
  pose proof (find_unique token _ _ _ Huniq Hrow) as Hfind.
  pose proof (find_delete_unique token _ _ _ Huniq Hrow) as Hgone.
  exists (mkDb (delete user (session db)) (delete user (session db))).
  split_and!; [|reflexivity|reflexivity| |].
  - apply (set_password_done _ _ _ _ _ _ _ _ Hfind); [unfold locked; lia|done..].
  - simpl. intros Hin. rewrite list_find_None, Forall_forall in Hgone.
    by apply (Hgone u).
  - intros w' p' new_password'. by apply set_password_not_found.
Qed.

Lemma redeem_once_witness :
  ∃ db',
    _set_password Example.CONF (Example.keystone 10) "T-alice" "1234" "new"
                  Example.db = (Returned (), db')
    ∧ session db' = [Example.bob; Example.carol]
    ∧ table db' = [Example.bob; Example.carol]
    ∧ (Example.alice ∉ table db')
    ∧ (∀ w' p' new_password',
         _set_password Example.CONF w' "T-alice" p' new_password' db'
         = (Raised TokenNotFoundException, db')).
Proof.
  apply (redeem_once Example.CONF (Example.keystone 10) Example.db 0
                     Example.alice "new").
  - apply example_unique_tokens.
  - reflexivity.
  - simpl. lia.
  - unfold expired, total_seconds_gt. simpl. lia.
  - exists 204%Z, "No Content". simpl. split; [reflexivity|lia].
Defined.

(** C3: against a stored request with [attempts > max_attempts], every
    redemption of its token raises [AccountLocked], whatever PIN, password and
    moment, and leaves the database as it was: [attempts] is not incremented. *)
Theorem locked_stays_locked CONF db user u :
  unique_tokens (session db) →
  session db !! user = Some u →
  (attempts u > max_attempts CONF)%Z →
  ∀ w p new_password,
    _set_password CONF w (token u) p new_password db
    = (Raised AccountLocked, db).
Proof.
  intros Huniq Hrow Hlocked w p new_password.
  by apply (set_password_locked _ _ _ _ _ _ user u);
    [apply (find_unique token)|].
Qed.

Lemma locked_stays_locked_witness :
  _set_password Example.CONF (Example.keystone 10) "T-bob" "4321" "new"
                Example.db
  = (Raised AccountLocked, Example.db)
  ∧ _set_password Example.CONF (Example.keystone 10) "T-bob" "9999" "new"
                  Example.db
    = (Raised AccountLocked, Example.db).
Proof.
  assert (∀ w p new_password,
            _set_password Example.CONF w "T-bob" p new_password Example.db
            = (Raised AccountLocked, Example.db)) as Hlocked.
  { apply (locked_stays_locked Example.CONF Example.db 1 Example.bob).
    - apply example_unique_tokens.
    - reflexivity.
    - simpl. lia. }
  split; apply Hlocked.
Defined.

(** C5: against a stored request that is not locked
    ([attempts <= max_attempts]), a redemption with a PIN other than the
    stored one raises [WrongPinException]; the record has [attempts]
    incremented by exactly 1 and is otherwise as before, every other record is
    as before, and the increment is committed: it is in [table] although the
    call failed. *)
Theorem wrong_pin_counts CONF w db user u p new_password :
  unique_tokens (session db) →
  session db !! user = Some u →
  (attempts u ≤ max_attempts CONF)%Z →
  p ≠ pin u →
  ∃ db',
    _set_password CONF w (token u) p new_password db
    = (Raised WrongPinException, db')
    ∧ table db' = <[user := set_attempts (attempts u + 1) u]> (session db)
    ∧ session db' = table db'
    ∧ table db' !! user = Some (set_attempts (attempts u + 1) u).
Proof.
  intros Huniq Hrow Hopen Hpin.
  pose proof (find_unique token _ _ _ Huniq Hrow) as Hfind.
  assert (alter failed_attempt user (session db)
          = <[user := set_attempts (attempts u + 1) u]> (session db)) as Halter.
  { apply list_eq. intros j. destruct (decide (user = j)) as [<-|Hne].
    - rewrite list_lookup_alter_eq, Hrow, list_lookup_insert_eq; [done|].
      by eapply lookup_lt_Some.
    - by rewrite list_lookup_alter_ne, list_lookup_insert_ne. }
  exists (mkDb (alter failed_attempt user (session db))
               (alter failed_attempt user (session db))).
  split_and!.
  - apply (set_password_wrong_pin _ _ _ _ _ _ _ _ Hfind); [unfold locked; lia|done].
  - done.
  - simpl. by rewrite Halter.
  - simpl. rewrite Halter. apply list_lookup_insert_eq. by eapply lookup_lt_Some.
Qed.

Lemma wrong_pin_counts_witness :
  ∃ db',
    _set_password Example.CONF (Example.keystone 10) "T-carol" "9999" "new"
                  Example.db = (Raised WrongPinException, db')
    ∧ table db' = [Example.alice; Example.bob; set_attempts 3 Example.carol]
    ∧ session db' = table db'
    ∧ table db' !! 2 = Some (set_attempts 3 Example.carol).
Proof.
  apply (wrong_pin_counts Example.CONF (Example.keystone 10) Example.db 2
                          Example.carol "9999" "new").
  - apply example_unique_tokens.
  - reflexivity.
  - simpl. lia.
  - discriminate.
Defined.

(** Every call of [_set_password] takes one of the paths. *)
Lemma set_password_redeemed CONF w tok p new_password db :
  redeemed CONF w tok p new_password db
           (_set_password CONF w tok p new_password db).1
           (_set_password CONF w tok p new_password db).2.
Proof.
  destruct (list_find (λ u, token u = tok) (session db)) as [[user u]|]
    eqn:Hfind.
  2: { rewrite set_password_not_found by done. by constructor. }
  destruct (decide (locked CONF u)) as [Hlocked|Hopen].
  { rewrite (set_password_locked _ _ _ _ _ _ _ _ Hfind) by done.
    by econstructor. }
  destruct (decide (p = pin u)) as [Hpin|Hpin].
  2: { rewrite (set_password_wrong_pin _ _ _ _ _ _ _ _ Hfind) by done.
       by econstructor. }
  destruct (decide (expired CONF w u)) as [Hexp|Hexp].
  { rewrite (set_password_expired _ _ _ _ _ _ _ _ Hfind) by done.
    by econstructor. }
  destruct (sess_post w (user_id u) (password u) new_password)
    as [status_code text|] eqn:Hpost.
  2: { rewrite (set_password_post_raised _ _ _ _ _ _ _ _ Hfind) by done.
       by econstructor. }
  destruct (decide (200 ≤ status_code ∧ status_code < 300)%Z) as [Hcode|Hcode].
  - rewrite (set_password_done _ _ _ _ _ _ _ _ Hfind);
      [|done..|by exists status_code, text].
    econstructor; [done..|]. by exists status_code, text.
  - rewrite (set_password_post_refused _ _ _ _ _ _ _ _ Hfind status_code text)
      by done.
    by econstructor.
Qed.

(** ** From [_set_password] to the view *)

Lemma submit_answer CONF tok a db :
  tok ≠ EmptyString → filled a →
  submit CONF tok a db
  = (answer (redeem CONF tok a db).1, (redeem CONF tok a db).2).
Proof.
  intros Htok [Hpin Hpw]. unfold submit, redeem, redeem_request.
  destruct a as [w p pw]; simpl in *.
  unfold set_password, form_item; simpl.
  unfold mbind, py_bind, bind, mret, py_ret, ret, try_except; simpl.
  rewrite lookup_insert_eq.
  rewrite lookup_insert_ne, lookup_insert_eq by done.
  rewrite lookup_insert_ne, lookup_insert_ne, lookup_singleton_eq by done.
  rewrite lookup_singleton_eq. simpl.
  rewrite !bool_decide_eq_false_2 by done. simpl.
  rewrite decide_False by (intros H; by apply H).
  destruct (_set_password CONF w tok p pw db) as [[?|?] ?]; reflexivity.
Qed.

Lemma run_cons {A} (call : py A) (calls : list (py A)) db :
  run (call :: calls) db
  = ((call db).1 :: (run calls (call db).2).1, (run calls (call db).2).2).
Proof.
  simpl. destruct (call db) as [o db1]. simpl.
  by destruct (run calls db1) as [os db2].
Qed.

Lemma run_submit CONF tok (tries : list Attempt) : ∀ db,
  tok ≠ EmptyString → Forall filled tries →
  run (submit CONF tok <$> tries) db
  = (answer <$> (run (redeem CONF tok <$> tries) db).1,
     (run (redeem CONF tok <$> tries) db).2).
Proof.
  induction tries as [|a tries IH]; intros db Htok Hfilled; [done|].
  apply Forall_cons in Hfilled as [Ha Htries].
  rewrite !fmap_cons, !run_cons, submit_answer by done.
  cbn [fst snd]. by rewrite IH.
Qed.

(** ** Wrong PINs in a row *)

Lemma set_attempts_set_attempts n m u :
  set_attempts n (set_attempts m u) = set_attempts n u.
Proof. done. Qed.

Lemma set_attempts_id u : set_attempts (attempts u) u = u.
Proof. by destruct u. Qed.

(** As long as the counter stays within [max_attempts + 1], wrong PINs are
    all answered with [WrongPinException] and counted one by one. *)
Lemma run_wrong_pins CONF tok (tries : list Attempt) : ∀ db user u,
  list_find (λ x, token x = tok) (session db) = Some (user, u) →
  Forall (λ a, at_pin a ≠ pin u) tries →
  (attempts u + Z.of_nat (length tries) ≤ max_attempts CONF + 1)%Z →
  ∃ db',
    run (redeem CONF tok <$> tries) db
    = (replicate (length tries) (Raised WrongPinException), db')
    ∧ session db'
      = <[user := set_attempts (attempts u + Z.of_nat (length tries)) u]> (session db)
    ∧ list_find (λ x, token x = tok) (session db')
      = Some (user, set_attempts (attempts u + Z.of_nat (length tries)) u)
    ∧ (tries ≠ [] → table db' = session db').
Proof.
  induction tries as [|a tries IH]; intros db user u Hfind Hpins Hbound.
  - exists db. simpl. rewrite Z.add_0_r, set_attempts_id.
    split_and!; [done| |done|done].
    symmetry. apply list_insert_id. by apply list_find_Some in Hfind as [? _].
  - apply Forall_cons in Hpins as [Hpin Hpins].
    rewrite length_cons, Nat2Z.inj_succ in Hbound.
    set (db1 := mkDb (alter failed_attempt user (session db))
                     (alter failed_attempt user (session db))).
    assert (redeem CONF tok a db = (Raised WrongPinException, db1)) as Hstep.
    { apply (set_password_wrong_pin _ _ _ _ _ _ _ _ Hfind);
        [unfold locked; lia|done]. }
    assert (list_find (λ x, token x = tok) (session db1)
            = Some (user, failed_attempt u)) as Hfind1.
    { simpl. rewrite (find_alter token) by done.
      rewrite Hfind. simpl. by rewrite decide_True. }
    destruct (IH db1 user (failed_attempt u) Hfind1) as (db' & Hrun & Hs & Hf & Ht).
    { done. }
    { simpl. lia. }
    assert (set_attempts (attempts (failed_attempt u) + Z.of_nat (length tries))
                         (failed_attempt u)
            = set_attempts (attempts u + Z.of_nat (length (a :: tries))) u)
      as Hcount.
    { unfold failed_attempt. rewrite set_attempts_set_attempts.
      f_equal. rewrite length_cons, Nat2Z.inj_succ. simpl. lia. }
    rewrite Hcount in Hs, Hf.
    exists db'. split_and!.
    + rewrite fmap_cons, run_cons, Hstep. cbn [fst snd]. by rewrite Hrun.
    + rewrite Hs. simpl. rewrite list_insert_alter.
      by rewrite list_alter_alter_eq, (list_insert_alter (session db)).
    + done.
    + intros _. destruct tries as [|b tries]; [|by apply Ht].
      simpl in Hrun. by injection Hrun as <-.
Qed.

(** ** Lockout *)

(** C2 (as amended): starting from a request with [attempts = 0], each of the
    first [max_attempts + 1] redemptions with a wrong PIN raises
    [WrongPinException] (HTTP 403, "Wrong pin"), and every redemption after
    them raises [AccountLocked] (HTTP 403), whatever its PIN: the lock is
    [attempts > max_attempts], so it closes with the attempt number
    [max_attempts + 2]. *)
Theorem lockout_after_max_plus_one CONF db user u (tries : list Attempt) :
  unique_tokens (session db) →
  session db !! user = Some u →
  attempts u = 0%Z →
  Z.of_nat (length tries) = (max_attempts CONF + 1)%Z →
  Forall (λ a, at_pin a ≠ pin u) tries →
  ∃ db',
    run (redeem CONF (token u) <$> tries) db
    = (replicate (length tries) (Raised WrongPinException), db')
    ∧ (∀ a, redeem CONF (token u) a db' = (Raised AccountLocked, db'))
    ∧ (token u ≠ EmptyString → Forall filled tries →
       run (submit CONF (token u) <$> tries) db
       = (replicate (length tries) (Returned (mkResponse "Wrong pin" 403)),
          db'))
    ∧ (token u ≠ EmptyString → ∀ a, filled a →
       submit CONF (token u) a db'
       = (Returned
            (mkResponse "Account locked, too many wrong attempts!" 403),
          db')).
Proof.
  intros Huniq Hrow Hfresh Hlen Hpins.
  pose proof (find_unique token _ _ _ Huniq Hrow) as Hfind.
  destruct (run_wrong_pins CONF (token u) tries db user u Hfind Hpins)
    as (db' & Hrun & _ & Hfind' & _); [lia|].
  assert (∀ a, redeem CONF (token u) a db' = (Raised AccountLocked, db'))
    as Hlocked.
  { intros a. apply (set_password_locked _ _ _ _ _ _ _ _ Hfind').
    unfold locked. simpl. lia. }
  exists db'. split_and!; [done..| |].
  - intros Htok Hfilled. rewrite run_submit, Hrun by done.
    cbn [fst snd]. by rewrite fmap_replicate.
  - intros Htok a Ha. by rewrite submit_answer, Hlocked.
Qed.

Lemma lockout_after_max_plus_one_witness :
  ∃ db',
    run (redeem Example.CONF "T-alice"
           <$> [Example.wrong 1; Example.wrong 2; Example.wrong 3]) Example.db
    = (replicate 3 (Raised WrongPinException), db')
    ∧ redeem Example.CONF "T-alice" (Example.right 4) db'
      = (Raised AccountLocked, db')
    ∧ run (submit Example.CONF "T-alice"
             <$> [Example.wrong 1; Example.wrong 2; Example.wrong 3])
          Example.db
      = (replicate 3 (Returned (mkResponse "Wrong pin" 403)), db')
    ∧ submit Example.CONF "T-alice" (Example.right 4) db'
      = (Returned (mkResponse "Account locked, too many wrong attempts!" 403),
         db').
Proof.
  destruct (lockout_after_max_plus_one Example.CONF Example.db 0 Example.alice
              [Example.wrong 1; Example.wrong 2; Example.wrong 3])
    as (db' & Hrun & Hlocked & Hhttp & Hhttp_locked).
  - apply example_unique_tokens.
  - reflexivity.
  - reflexivity.
  - reflexivity.
  - repeat constructor; discriminate.
  - exists db'. split_and!.
    + exact Hrun.
    + apply Hlocked.
    + apply Hhttp; [discriminate|]. repeat constructor; discriminate.
    + apply Hhttp_locked; [discriminate|]. split; discriminate.
Defined.

(** C2 as stated fails: with [max_attempts = 2], after two wrong PINs the
    third attempt, which is attempt number [max_attempts + 1], is not locked
    out: made with the correct PIN it succeeds, and the view answers 200. *)
Lemma lockout_not_after_max :
  max_attempts Example.CONF = 2%Z
  ∧ (run (redeem Example.CONF "T-alice"
            <$> [Example.wrong 1; Example.wrong 2; Example.right 3])
         Example.db).1
    = [Raised WrongPinException; Raised WrongPinException; Returned ()]
  ∧ (run (submit Example.CONF "T-alice"
            <$> [Example.wrong 1; Example.wrong 2; Example.right 3])
         Example.db).1
    = [Returned (mkResponse "Wrong pin" 403);
       Returned (mkResponse "Wrong pin" 403);
       Returned (mkResponse "Password set." 200)].
Proof. split_and!; vm_compute; reflexivity. Qed.

(** C9: the PIN is checked before the expiry.  Against a record that is
    expired but not locked, a wrong PIN raises [WrongPinException] and is
    counted; wrong PINs against the expired record go on being counted until
    the record is locked; and a record that is locked and expired answers
    [AccountLocked], not [TokenExpiredException]. *)
Theorem pin_check_precedes_expiry CONF db user u :
  unique_tokens (session db) →
  session db !! user = Some u →
  (∀ w p new_password,
     expired CONF w u → ¬ locked CONF u → p ≠ pin u →
     ∃ db',
       _set_password CONF w (token u) p new_password db
       = (Raised WrongPinException, db')
       ∧ table db' !! user = Some (set_attempts (attempts u + 1) u))
  ∧ (∀ tries,
       ¬ locked CONF u →
       Forall (λ a, expired CONF (at_world a) u ∧ at_pin a ≠ pin u) tries →
       Z.of_nat (length tries) = (max_attempts CONF + 1 - attempts u)%Z →
       ∃ db' u',
         run (redeem CONF (token u) <$> tries) db
         = (replicate (length tries) (Raised WrongPinException), db')
         ∧ session db' !! user = Some u'
         ∧ locked CONF u'
         ∧ updated_at u' = updated_at u
         ∧ (∀ a, redeem CONF (token u) a db' = (Raised AccountLocked, db')))
  ∧ (∀ w p new_password,
       expired CONF w u → locked CONF u →
       _set_password CONF w (token u) p new_password db
       = (Raised AccountLocked, db)).
Proof.
  intros Huniq Hrow.
  pose proof (find_unique token _ _ _ Huniq Hrow) as Hfind.
  split_and!.
  - intros w p new_password _ Hopen Hpin.
    eexists. split.
    + by apply (set_password_wrong_pin _ _ _ _ _ _ _ _ Hfind).
    + simpl. by rewrite list_lookup_alter_eq, Hrow.
  - intros tries Hopen Htries Hlen.
    destruct (run_wrong_pins CONF (token u) tries db user u Hfind)
      as (db' & Hrun & _ & Hfind' & _).
    { eapply Forall_impl; [done|]. by intros a [_ ?]. }
    { lia. }
    assert (locked CONF
              (set_attempts (attempts u + Z.of_nat (length tries)) u))
      as Hlocked by (unfold locked; simpl; lia).
    eexists db', _. split_and!; [done| |done|done|].
    + by apply list_find_Some in Hfind' as [? _].
    + intros a. by apply (set_password_locked _ _ _ _ _ _ _ _ Hfind').
  - intros w p new_password _ Hlocked.
    by apply (set_password_locked _ _ _ _ _ _ _ _ Hfind).
Qed.

Lemma pin_check_precedes_expiry_witness :
  (∃ db',
     _set_password Example.CONF (Example.keystone Example.late)
                   "T-carol" "9999" "new" Example.db
     = (Raised WrongPinException, db')
     ∧ table db' !! 2 = Some (set_attempts 3 Example.carol))
  ∧ (∃ db' u',
       run (redeem Example.CONF "T-carol" <$> [Example.wrong Example.late])
           Example.db
       = ([Raised WrongPinException], db')
       ∧ session db' !! 2 = Some u'
       ∧ locked Example.CONF u'
       ∧ updated_at u' = 0%Z
       ∧ (∀ a, redeem Example.CONF "T-carol" a db'
               = (Raised AccountLocked, db')))
  ∧ _set_password Example.CONF (Example.keystone Example.late)
                  "T-bob" "4321" "new" Example.db
    = (Raised AccountLocked, Example.db).
Proof.
  assert (∀ u, updated_at u = 0%Z →
               expired Example.CONF (Example.keystone Example.late) u)
    as Hlate.
  { intros u Hu. unfold expired, total_seconds_gt. rewrite Hu. simpl.
    unfold Example.late. lia. }
  destruct (pin_check_precedes_expiry Example.CONF Example.db 2 Example.carol
              example_unique_tokens eq_refl) as (Hcounted & Hlocks & _).
  destruct (pin_check_precedes_expiry Example.CONF Example.db 1 Example.bob
              example_unique_tokens eq_refl) as (_ & _ & Hlocked).
  split_and!.
  - apply (Hcounted (Example.keystone Example.late) "9999" "new").
    + by apply Hlate.
    + unfold locked. simpl. lia.
    + discriminate.
  - apply (Hlocks [Example.wrong Example.late]).
    + unfold locked. simpl. lia.
    + constructor; [split; [by apply Hlate|discriminate]|constructor].
    + reflexivity.
  - apply (Hlocked (Example.keystone Example.late) "4321" "new").
    + by apply Hlate.
    + unfold locked. simpl. lia.
Defined.

(** ** Failed redemptions and the store *)

(** C6 (as amended): a redemption that fails with anything but
    [WrongPinException] (token not found, account locked, token expired, an
    error of keystone) leaves the database exactly as it was; one that fails
    with [WrongPinException] changes nothing but the [attempts] of the record
    of the token, which is incremented and committed.  In particular,
    redeeming with the correct PIN a record that is not locked, after
    [updated_at + token_expiration] has passed, raises
    [TokenExpiredException] and the record remains, found by its token, with
    all its fields as before. *)
Theorem failed_redemption_frame CONF w db :
  (∀ tok p new_password e db',
     _set_password CONF w tok p new_password db = (Raised e, db') →
     (e ≠ WrongPinException → db' = db)
     ∧ (e = WrongPinException →
        ∃ user u,
          list_find (λ x, token x = tok) (session db) = Some (user, u)
          ∧ session db'
            = <[user := set_attempts (attempts u + 1) u]> (session db)
          ∧ table db' = session db'))
  ∧ (∀ user u new_password,
       unique_tokens (session db) →
       session db !! user = Some u →
       ¬ locked CONF u →
       expired CONF w u →
       _set_password CONF w (token u) (pin u) new_password db
       = (Raised TokenExpiredException, db)
       ∧ list_find (λ x, token x = token u) (session db) = Some (user, u)).
Proof.
  split.
  - intros tok p new_password e db' Hcall.
    pose proof (set_password_redeemed CONF w tok p new_password db) as Hpath.
    rewrite Hcall in Hpath. simpl in Hpath.
    inversion Hpath; subst; (split; [done|]); try done.
    intros _. exists user, u. split_and!; [done| |done].
    simpl. apply list_eq. intros j. destruct (decide (user = j)) as [<-|Hne].
    + match goal with H : list_find _ _ = Some _ |- _ =>
        apply list_find_Some in H as (Hrow & _) end.
      rewrite list_lookup_alter_eq, Hrow, list_lookup_insert_eq; [done|].
      by eapply lookup_lt_Some.
    + by rewrite list_lookup_alter_ne, list_lookup_insert_ne.
  - intros user u new_password Huniq Hrow Hopen Hexp.
    pose proof (find_unique token _ _ _ Huniq Hrow) as Hfind.
    split; [|done]. by apply (set_password_expired _ _ _ _ _ _ _ _ Hfind).
Qed.

Lemma failed_redemption_frame_witness :
  (_set_password Example.CONF (Example.keystone Example.late)
                 "T-alice" "1234" "new" Example.db
   = (Raised TokenExpiredException, Example.db)
   ∧ list_find (λ x, token x = "T-alice") (session Example.db)
     = Some (0, Example.alice))
  ∧ (∀ db',
       _set_password Example.CONF (Example.keystone Example.late)
                     "T-nobody" "1234" "new" Example.db
       = (Raised TokenNotFoundException, db') →
       db' = Example.db).
Proof.
  destruct (failed_redemption_frame Example.CONF
              (Example.keystone Example.late) Example.db) as [Hframe Hexp].
  split.
  - apply (Hexp 0 Example.alice "new").
    + apply example_unique_tokens.
    + reflexivity.
    + unfold locked. simpl. lia.
    + unfold expired, total_seconds_gt. simpl. unfold Example.late. lia.
  - intros db' Hcall.
    by apply (Hframe "T-nobody" "1234" "new" TokenNotFoundException db' Hcall).
Defined.

(** C6 as stated fails in its last part: redeeming after the expiry does not
    always raise [TokenExpiredException] with the record unchanged.  With a
    wrong PIN the expired record of alice answers [WrongPinException] and its
    [attempts] go from 0 to 1; the locked and expired record of bob answers
    [AccountLocked]. *)
Lemma expired_is_checked_last :
  expired Example.CONF (Example.keystone Example.late) Example.alice
  ∧ expired Example.CONF (Example.keystone Example.late) Example.bob
  ∧ _set_password Example.CONF (Example.keystone Example.late)
                  "T-alice" "9999" "new" Example.db
    = (Raised WrongPinException,
       mkDb [set_attempts 1 Example.alice; Example.bob; Example.carol]
            [set_attempts 1 Example.alice; Example.bob; Example.carol])
  ∧ _set_password Example.CONF (Example.keystone Example.late)
                  "T-bob" "4321" "new" Example.db
    = (Raised AccountLocked, Example.db).
Proof.
  split_and!; [unfold expired, total_seconds_gt; simpl; unfold Example.late; lia..| |];
    vm_compute; reflexivity.
Qed.

(** ** Provisioning *)

Lemma alter_row (f : User → User) (l : list User) i x :
  l !! i = Some x → alter f i l = <[i := f x]> l.
Proof.
  intros Hi. apply list_eq. intros j. destruct (decide (i = j)) as [<-|Hne].
  - rewrite list_lookup_alter_eq, Hi, list_lookup_insert_eq; [done|].
    by eapply lookup_lt_Some.
  - by rewrite list_lookup_alter_ne, list_lookup_insert_ne.
Qed.

Lemma alter_insert_row (f : User → User) (l : list User) i x y :
  l !! i = Some x → alter f i (<[i := y]> l) = <[i := f y]> l.
Proof.
  intros Hi. rewrite (alter_row f _ i y).
  - apply list_insert_insert_eq.
  - apply list_lookup_insert_eq. by eapply lookup_lt_Some.
Qed.

(** The request carries a credential that keystone accepts as admin. *)
Lemma add_authorized w request uid db t :
  headers request !! "x-auth-token" = Some t → t ≠ EmptyString →
  _check_admin_token w t db = (Returned true, db) →
  add w request uid db
  = (payload ← json_loads (data request);
     found ← User_find_user_id uid;
     match found with
     | Some (user, _) =>
         match payload !! "pin" with
         | Some v => update_row (set_pin v) user
         | None => mret ()
         end;;
         match payload !! "password" with
         | Some v => update_row (set_password_field v) user
         | None => mret ()
         end;;
         update_row (set_token (uuid4 w)) user;;
         update_row (update_timestamp_and_attempts (utcnow w)) user;;
         commit;;
         mret (mkResponse (uuid4 w) 200)
     | None =>
         p ← payload_item payload "pin";
         pw ← payload_item payload "password";
         session_add (User_new (utcnow w) uid (uuid4 w) p pw);;
         commit;;
         mret (mkResponse (uuid4 w) 200)
     end) db.
Proof.
  intros Hheader Ht Hadmin. unfold add. rewrite Hheader. simpl.
  rewrite bool_decide_eq_false_2 by done.
  unfold mbind at 1, py_bind at 1, bind at 1. by rewrite Hadmin.
Qed.

Section Provisioning.

Context (w : World) (request : Request) (uid : string) (db : Db) (t : string).
Context (Hheader : headers request !! "x-auth-token" = Some t) (Ht : t ≠ EmptyString).
Context (Hadmin : _check_admin_token w t db = (Returned true, db)).
Context (payload : gmap string string).
Context (Hdata : data request = JsonObject payload).

(** The record of [uid] exists: it is rewritten in place. *)
Lemma add_existing user u :
  list_find (λ x, user_id x = uid) (session db) = Some (user, u) →
  add w request uid db
  = (Returned (mkResponse (uuid4 w) 200),
     mkDb (<[user := reprovisioned w payload u]> (session db))
          (<[user := reprovisioned w payload u]> (session db))).
Proof using Hheader Ht Hadmin Hdata.
  intros Hfind. rewrite (add_authorized _ _ _ _ t) by done. rewrite Hdata.
  py_unfold. rewrite Hfind.
  apply list_find_Some in Hfind as (Hrow & _). unfold reprovisioned.
  destruct (payload !! "pin") as [v|], (payload !! "password") as [v'|]; simpl;
    rewrite ?(alter_row _ _ _ _ Hrow), ?(alter_insert_row _ _ _ _ _ Hrow);
    reflexivity.
Qed.

(** There is no record of [uid] and the body has both fields: a record is
    appended, with [attempts = 0]. *)
Lemma add_new p pw :
  list_find (λ x, user_id x = uid) (session db) = None →
  payload !! "pin" = Some p → payload !! "password" = Some pw →
  add w request uid db
  = (Returned (mkResponse (uuid4 w) 200),
     mkDb (session db ++ [User_new (utcnow w) uid (uuid4 w) p pw])
          (session db ++ [User_new (utcnow w) uid (uuid4 w) p pw])).
Proof using Hheader Ht Hadmin Hdata.
  intros Hfind Hpin Hpw. rewrite (add_authorized _ _ _ _ t) by done.
  rewrite Hdata. py_unfold. by rewrite Hfind, Hpin, Hpw.
Qed.

End Provisioning.

(** C7: provisioning, by an admin, a [user_id] that has a stored request
    answers 200 with a token from the uuid generator and rewrites the record
    in place: [token] is the new token, [attempts] is 0, [updated_at] is the
    time of the call, [pin] and [password] are those of the body where the
    body has them and the former ones where it does not; [user_id] and every
    other record are as before, and the change is committed. *)
Theorem provision_again w request db user u t payload :
  unique_user_ids (session db) →
  session db !! user = Some u →
  headers request !! "x-auth-token" = Some t → t ≠ EmptyString →
  _check_admin_token w t db = (Returned true, db) →
  data request = JsonObject payload →
  ∃ u',
    u' = mkUser (user_id u) (uuid4 w)
                (default (pin u) (payload !! "pin"))
                (default (password u) (payload !! "password"))
                0 (utcnow w)
    ∧ add w request (user_id u) db
      = (Returned (mkResponse (uuid4 w) 200),
         mkDb (<[user := u']> (session db)) (<[user := u']> (session db))).
Proof.
  intros Huniq Hrow Hheader Ht Hadmin Hdata.
  pose proof (find_unique user_id _ _ _ Huniq Hrow) as Hfind.
  eexists. split; [reflexivity|].
  by apply (add_existing _ _ _ _ t).
Qed.

Lemma provision_again_witness :
  ∃ u',
    u' = mkUser "bob" "T-new" "7777" "old-b" 0 50
    ∧ add (Example.keystone 50) (Example.put {[ "pin" := "7777" ]}) "bob"
          Example.db
      = (Returned (mkResponse "T-new" 200),
         mkDb [Example.alice; u'; Example.carol]
              [Example.alice; u'; Example.carol]).
Proof.
  destruct (provision_again (Example.keystone 50)
              (Example.put {[ "pin" := "7777" ]}) Example.db 1 Example.bob
              "admin" {[ "pin" := "7777" ]})
    as (u' & Hu' & Hadd).
  - apply example_unique_user_ids.
  - reflexivity.
  - reflexivity.
  - discriminate.
  - reflexivity.
  - reflexivity.
  - exists u'. split.
    + rewrite Hu'. vm_compute. reflexivity.
    + etrans; [exact Hadd|]. rewrite Hu'. vm_compute. reflexivity.
Defined.

(** C8: without an [x-auth-token] header the provisioning view answers 401
    "Unauthorized"; with a credential that the admin check rejects it answers
    403 "Forbidden"; in both cases the database is as it was. *)
Theorem provisioning_requires_admin w request uid db :
  (headers request !! "x-auth-token" = None →
   add w request uid db = (Returned (mkResponse "Unauthorized" 401), db))
  ∧ (∀ t,
       headers request !! "x-auth-token" = Some t → t ≠ EmptyString →
       _check_admin_token w t db = (Returned false, db) →
       add w request uid db = (Returned (mkResponse "Forbidden" 403), db)).
Proof.
  split.
  - intros Hheader. unfold add. by rewrite Hheader.
  - intros t Hheader Ht Hadmin. unfold add. rewrite Hheader. simpl.
    rewrite bool_decide_eq_false_2 by done.
    unfold mbind, py_bind, bind. by rewrite Hadmin.
Qed.

Lemma provisioning_requires_admin_witness :
  add (Example.keystone 50)
      (mkRequest ∅ ∅ ∅ (JsonObject {[ "pin" := "1"; "password" := "x" ]}))
      "dave" Example.db
  = (Returned (mkResponse "Unauthorized" 401), Example.db)
  ∧ add (Example.keystone 50)
        (mkRequest ∅ ∅ {[ "x-auth-token" := "guest" ]}
                   (JsonObject {[ "pin" := "1"; "password" := "x" ]}))
        "dave" Example.db
    = (Returned (mkResponse "Forbidden" 403), Example.db).
Proof.
  split.
  - by apply provisioning_requires_admin.
  - apply (proj2 (provisioning_requires_admin _ _ _ _) "guest");
      [reflexivity|discriminate|reflexivity].
Defined.

(** C10: for a [user_id] without a record, an admin request whose body is not
    JSON, or is an object without ["pin"] or without ["password"], does not
    get a response from the view: [json.loads] raises [ValueError], or the
    lookup in the payload raises [KeyError], nothing catches it, and the
    database is as it was: no record has been created. *)
Theorem provisioning_incomplete_body w request uid db t :
  headers request !! "x-auth-token" = Some t → t ≠ EmptyString →
  _check_admin_token w t db = (Returned true, db) →
  list_find (λ x, user_id x = uid) (session db) = None →
  (data request = Malformed →
   add w request uid db = (Raised ValueError, db))
  ∧ (∀ payload,
       data request = JsonObject payload →
       payload !! "pin" = None ∨ payload !! "password" = None →
       ∃ key,
         (key = "pin" ∨ key = "password")
         ∧ payload !! key = None
         ∧ add w request uid db = (Raised (KeyError key), db)).
Proof.
  intros Hheader Ht Hadmin Hfind. split.
  - intros Hdata. rewrite (add_authorized _ _ _ _ t) by done.
    by rewrite Hdata.
  - intros payload Hdata Hmissing.
    rewrite (add_authorized _ _ _ _ t) by done. rewrite Hdata.
    py_unfold. rewrite Hfind.
    destruct (payload !! "pin") as [v|] eqn:Hpin.
    + destruct Hmissing as [|Hpw]; [done|].
      exists "password". rewrite Hpw. split_and!; [by right|done..].
    + exists "pin". split_and!; [by left|done..].
Qed.

Lemma provisioning_incomplete_body_witness :
  add (Example.keystone 50)
      (mkRequest ∅ ∅ {[ "x-auth-token" := "admin" ]} Malformed)
      "dave" Example.db
  = (Raised ValueError, Example.db)
  ∧ ∃ key,
      (key = "pin" ∨ key = "password")
      ∧ ({[ "pin" := "1" ]} : gmap string string) !! key = None
      ∧ add (Example.keystone 50) (Example.put {[ "pin" := "1" ]})
            "dave" Example.db
        = (Raised (KeyError key), Example.db).
Proof.
  split.
  - by apply (provisioning_incomplete_body _ _ _ _ "admin").
  - apply (proj2 (provisioning_incomplete_body (Example.keystone 50)
                    (Example.put {[ "pin" := "1" ]}) "dave" Example.db "admin"
                    eq_refl ltac:(discriminate) eq_refl eq_refl)
             {[ "pin" := "1" ]}); [reflexivity|by right].
Defined.

(** ** The attempts counter *)

Lemma attempts_of_failed_attempt uid user rows rows' n n' :
  attempts_of uid (mkDb rows' rows) = Some n →
  attempts_of uid (mkDb (alter failed_attempt user rows)
                        (alter failed_attempt user rows)) = Some n' →
  (n ≤ n')%Z.
Proof.
  unfold attempts_of. simpl. rewrite (find_alter user_id) by done.
  destruct (list_find _ rows) as [[j x]|]; [|done]. simpl.
  intros [= <-] [= <-]. case_decide; simpl; lia.
Qed.

Lemma attempts_of_delete uid user rows rows' n n' :
  unique_user_ids rows →
  attempts_of uid (mkDb rows' rows) = Some n →
  attempts_of uid (mkDb (delete user rows) (delete user rows)) = Some n' →
  n = n'.
Proof.
  unfold attempts_of. simpl. intros Huniq Hn Hn'.
  destruct (list_find _ (delete user rows)) as [[j y]|] eqn:Hfind; [|done].
  apply (find_delete_Some user_id) in Hfind as [j' Hfind]; [|done].
  rewrite Hfind in Hn. simpl in *. congruence.
Qed.

Lemma redeemed_attempts CONF w tok p new_password db o db' uid n n' :
  redeemed CONF w tok p new_password db o db' →
  unique_user_ids (session db) →
  attempts_of uid db = Some n →
  attempts_of uid db' = Some n' →
  (n ≤ n')%Z.
Proof.
  intros Hpath Huniq Hn Hn'. destruct db as [rows' rows].
  destruct Hpath;
    first [ assert (Some n = Some n') as [= ->] by congruence; lia
          | by eapply attempts_of_failed_attempt
          | by erewrite (attempts_of_delete uid _ rows rows' n n') ].
Qed.

Lemma attempts_of_add_existing w request uid db t payload n :
  headers request !! "x-auth-token" = Some t → t ≠ EmptyString →
  _check_admin_token w t db = (Returned true, db) →
  data request = JsonObject payload →
  attempts_of uid db = Some n →
  attempts_of uid (add w request uid db).2 = Some 0%Z.
Proof.
  intros Hheader Ht Hadmin Hdata Hn. unfold attempts_of in Hn.
  destruct (list_find _ (session db)) as [[user u]|] eqn:Hfind; [|done].
  rewrite (add_existing _ _ _ _ t Hheader Ht Hadmin payload Hdata user u Hfind).
  apply list_find_Some in Hfind as Hrow. destruct Hrow as (Hrow & _).
  unfold attempts_of. simpl.
  rewrite <-(alter_row (reprovisioned w payload) _ _ _ Hrow).
  rewrite (find_alter user_id) by done.
  rewrite Hfind. simpl. by rewrite decide_True.
Qed.

(** C4 (as amended): redemption and the recording of a failed attempt never
    decrease the [attempts] of the record of a [user_id]: whatever the call
    and its outcome, a record that is there before and after has a counter at
    least as large as before.  Provisioning is the exception: an admin request
    for a [user_id] that has a record sets its [attempts] to 0. *)
Theorem attempts_monotone CONF w db uid n :
  unique_user_ids (session db) →
  attempts_of uid db = Some n →
  (∀ tok p new_password n',
     attempts_of uid (_set_password CONF w tok p new_password db).2 = Some n' →
     (n ≤ n')%Z)
  ∧ (∀ user n',
       attempts_of uid (_increase_attempts user db).2 = Some n' →
       (n ≤ n')%Z)
  ∧ (∀ request t payload,
       headers request !! "x-auth-token" = Some t → t ≠ EmptyString →
       _check_admin_token w t db = (Returned true, db) →
       data request = JsonObject payload →
       attempts_of uid (add w request uid db).2 = Some 0%Z).
Proof.
  intros Huniq Hn. split_and!.
  - intros tok p new_password n' Hn'.
    eapply redeemed_attempts; [apply set_password_redeemed|done..].
  - intros user n' Hn'. destruct db as [rows' rows].
    exact (attempts_of_failed_attempt uid user rows rows' n n' Hn Hn').
  - intros request t payload Hheader Ht Hadmin Hdata.
    by eapply attempts_of_add_existing.
Qed.

Lemma attempts_monotone_witness :
  attempts_of "carol" Example.db = Some 2%Z
  ∧ attempts_of "carol"
      (_set_password Example.CONF (Example.keystone 10) "T-carol" "9999" "new"
                     Example.db).2 = Some 3%Z
  ∧ (2 ≤ 3)%Z.
Proof.
  split_and!; [reflexivity..|].
  destruct (attempts_monotone Example.CONF (Example.keystone 10) Example.db
              "carol" 2 example_unique_user_ids eq_refl) as (Hredeem & _ & _).
  apply (Hredeem "T-carol" "9999" "new" 3%Z). vm_compute. reflexivity.
Defined.

(** C4 as stated fails: provisioning is an operation of the system, and
    provisioning the [user_id] of carol again takes the [attempts] of her
    record from 2 back to 0. *)
Lemma provisioning_resets_attempts :
  attempts_of "carol" Example.db = Some 2%Z
  ∧ attempts_of "carol"
      (add (Example.keystone 10) (Example.put ∅) "carol" Example.db).2
    = Some 0%Z.
Proof. split; vm_compute; reflexivity. Qed.

(** ** The invariants are kept *)

Lemma NoDup_insert_fresh {A} (l : list A) i x :
  NoDup l → x ∉ l → NoDup (<[i := x]> l).
Proof.
  rewrite !NoDup_alt. intros Hnd Hx j k y Hj Hk.
  apply list_lookup_insert_Some in Hj as [(<- & <- & _)|[_ Hj]];
    apply list_lookup_insert_Some in Hk as [(<- & Heq & _)|[_ Hk]];
    try done.
  - destruct Hx. by eapply list_elem_of_lookup_2.
  - destruct Hx. subst. by eapply list_elem_of_lookup_2.
  - by eapply Hnd.
Qed.

(** Redemption keeps the keys unique and leaves nothing uncommitted. *)
Lemma redeemed_invariants CONF w tok p new_password db o db' :
  redeemed CONF w tok p new_password db o db' →
  unique_tokens (session db) → unique_user_ids (session db) →
  table db = session db →
  unique_tokens (session db') ∧ unique_user_ids (session db')
  ∧ table db' = session db'.
Proof.
  unfold unique_tokens, unique_user_ids.
  intros Hpath Htok Huid Hclean. destruct Hpath; try done; simpl.
  - rewrite (list_fmap_alter token _ id), (list_fmap_alter user_id _ id)
      by by apply Forall_true.
    by rewrite !list_alter_id by done.
  - rewrite !list_fmap_delete.
    split_and!;
      [(eapply sublist_NoDup; [|apply sublist_delete]); done..|done].
Qed.

(** Provisioning keeps them too, as long as the uuid generator delivers a
    token that no record has. *)
Lemma add_invariants w request uid db :
  unique_tokens (session db) → unique_user_ids (session db) →
  table db = session db →
  uuid4 w ∉ token <$> session db →
  unique_tokens (session (add w request uid db).2)
  ∧ unique_user_ids (session (add w request uid db).2)
  ∧ table (add w request uid db).2 = session (add w request uid db).2.
Proof.
  unfold unique_tokens, unique_user_ids. intros Htok Huid Hclean Hfresh.
  unfold add. destruct (headers request !! "x-auth-token") as [t|]; [|done].
  simpl. case_bool_decide; [done|]. py_unfold.
  destruct (sess_get_token w t); simpl; [|done..].
  destruct (data request) as [|payload]; simpl; [done|].
  destruct (list_find _ (session db)) as [[user u]|] eqn:Hfind.
  - apply list_find_Some in Hfind as (Hrow & Huser & _).
    assert (∀ v v',
      NoDup (token <$> <[user := mkUser (user_id u) (uuid4 w) v v' 0 (utcnow w)]>
                         (session db))
      ∧ NoDup (user_id <$> <[user := mkUser (user_id u) (uuid4 w) v v' 0 (utcnow w)]>
                             (session db))) as Hkept.
    { intros v v'. rewrite !list_fmap_insert. simpl. split.
      - by apply NoDup_insert_fresh.
      - rewrite list_insert_id; [done|]. by rewrite list_lookup_fmap, Hrow. }
    destruct (payload !! "pin") as [v|], (payload !! "password") as [v'|];
      simpl;
      rewrite ?(alter_row _ _ _ _ Hrow), ?(alter_insert_row _ _ _ _ _ Hrow);
      (split_and!; [apply Hkept..|done]).
  - apply list_find_None in Hfind.
    destruct (payload !! "pin") as [v|]; simpl; [|done].
    destruct (payload !! "password") as [v'|]; simpl; [|done].
    rewrite !fmap_app. simpl. split_and!; [| |done].
    + apply NoDup_app. split_and!; [done| |apply NoDup_singleton].
      intros x Hx ->%list_elem_of_singleton. done.
    + apply NoDup_app. split_and!; [done| |apply NoDup_singleton].
      intros x (y & -> & Hy)%list_elem_of_fmap Heq%list_elem_of_singleton.
      rewrite Forall_forall in Hfind. by apply (Hfind y).
Qed.

(** * Further properties of the views *)

(** ** The view [set_password] *)

(** X1: the view answers 200 only after every check: the request names a
    token that is stored, the PIN of the form is the stored one, the record
    is neither locked nor expired, both password fields agree, keystone
    answered the change of the stored old password with a 2xx status, and the
    record has been deleted and the deletion committed. *)
Theorem password_set_only_after_all_checks CONF w request db r db' :
  set_password CONF w request db = (Returned r, db') →
  status r = 200%Z →
  ∃ tok new_password user u,
    args request !! "token" = Some tok
    ∧ form request !! "password" = Some new_password
    ∧ form request !! "confirm_password" = Some new_password
    ∧ form request !! "pin" = Some (pin u)
    ∧ list_find (λ x, token x = tok) (session db) = Some (user, u)
    ∧ ¬ locked CONF u ∧ ¬ expired CONF w u
    ∧ post_succeeds w u new_password
    ∧ db' = mkDb (delete user (session db)) (delete user (session db))
    ∧ r = mkResponse "Password set." 200.
Proof.
  unfold set_password, form_item.
  unfold mbind, py_bind, bind, mret, py_ret, ret, raise, try_except.
  destruct (form request !! "password") as [new_password|]; [|done].
  destruct (form request !! "confirm_password") as [confirm_password|];
    [|done].
  destruct (form request !! "pin") as [p|]; [|done].
  destruct (args request !! "token") as [tok|]; simpl;
    [|by intros [= <- <-]].
  destruct (_ || _); [by intros [= <- <-]|].
  destruct (decide (new_password ≠ confirm_password)) as [|Hsame];
    [by intros [= <- <-]|].
  apply dec_stable in Hsame as <-.
  pose proof (set_password_redeemed CONF w tok p new_password db) as Hpath.
  destruct (_set_password CONF w tok p new_password db) as [[[]|e] db1].
  - intros [= <- <-] _. simpl in Hpath. inversion Hpath; subst.
    by exists tok, new_password, user, u.
  - destruct e; simpl; intros [= <- <-]; done.
Qed.

Lemma password_set_only_after_all_checks_witness :
  ∃ tok new_password user u,
    args (redeem_request "T-alice" "1234" "new") !! "token" = Some tok
    ∧ form (redeem_request "T-alice" "1234" "new") !! "password"
      = Some new_password
    ∧ form (redeem_request "T-alice" "1234" "new") !! "confirm_password"
      = Some new_password
    ∧ form (redeem_request "T-alice" "1234" "new") !! "pin" = Some (pin u)
    ∧ list_find (λ x, token x = tok) (session Example.db) = Some (user, u)
    ∧ ¬ locked Example.CONF u
    ∧ ¬ expired Example.CONF (Example.keystone 10) u
    ∧ post_succeeds (Example.keystone 10) u new_password
    ∧ mkDb [Example.bob; Example.carol] [Example.bob; Example.carol]
      = mkDb (delete user (session Example.db))
             (delete user (session Example.db))
    ∧ mkResponse "Password set." 200 = mkResponse "Password set." 200.
Proof.
  apply (password_set_only_after_all_checks Example.CONF (Example.keystone 10)
           (redeem_request "T-alice" "1234" "new") Example.db).
  - vm_compute. reflexivity.
  - reflexivity.
Defined.

(** X2: a form that is not complete and consistent is refused before the
    table or keystone are looked at.  A missing field raises
    [BadRequestKeyError], which Flask answers with 400; a missing token or an
    empty field is answered 400 "Missing required field!"; two different
    passwords are answered 400 "Passwords do not match".  In each case the
    database is as it was, whatever the token, the PIN and the world. *)
Theorem incomplete_form_is_refused CONF w request db :
  (∀ key,
     key = "password"
     ∨ key = "confirm_password" ∧ is_Some (form request !! "password")
     ∨ key = "pin" ∧ is_Some (form request !! "password")
       ∧ is_Some (form request !! "confirm_password") →
     form request !! key = None →
     set_password CONF w request db = (Raised (BadRequestKeyError key), db))
  ∧ (∀ new_password confirm_password p,
       form request !! "password" = Some new_password →
       form request !! "confirm_password" = Some confirm_password →
       form request !! "pin" = Some p →
       (args request !! "token" = None
        ∨ args request !! "token" = Some EmptyString
        ∨ new_password = EmptyString ∨ confirm_password = EmptyString
        ∨ p = EmptyString →
        set_password CONF w request db
        = (Returned (mkResponse "Missing required field!" 400), db))
       ∧ (is_Some (args request !! "token") →
          args request !! "token" ≠ Some EmptyString →
          new_password ≠ EmptyString → confirm_password ≠ EmptyString →
          p ≠ EmptyString →
          new_password ≠ confirm_password →
          set_password CONF w request db
          = (Returned (mkResponse "Passwords do not match" 400), db))).
Proof.
  unfold set_password, form_item.
  unfold mbind, py_bind, bind, mret, py_ret, ret, raise, try_except.
  split.
  - intros key [->|[(-> & ? & Hpw)|(-> & (? & Hpw) & (? & Hcpw))]] Hkey;
      rewrite ?Hpw, ?Hcpw, Hkey; done.
  - intros new_password confirm_password p -> -> ->. split.
    + intros Hempty. cut (not_ (args request !! "token")
                          || not_ (Some new_password)
                          || not_ (Some confirm_password)
                          || not_ (Some p) = true).
      { by intros ->. }
      destruct Hempty as [-> | [-> | [-> | [-> | ->]]]]; simpl;
        rewrite ?orb_true_r; done.
    + intros [tok Htok] Hne Hpw Hcpw Hp Hdiff. rewrite Htok in *. simpl.
      rewrite !bool_decide_eq_false_2 by congruence. simpl.
      by rewrite decide_True.
Qed.

Lemma incomplete_form_is_refused_witness :
  set_password Example.CONF (Example.keystone 10)
               (mkRequest {[ "token" := "T-alice" ]}
                          {[ "password" := "new"; "pin" := "1234" ]}
                          ∅ Malformed)
               Example.db
  = (Raised (BadRequestKeyError "confirm_password"), Example.db)
  ∧ set_password Example.CONF (Example.keystone 10)
                 (mkRequest {[ "token" := "T-alice" ]}
                            {[ "password" := "new";
                               "confirm_password" := "other";
                               "pin" := "1234" ]}
                            ∅ Malformed)
                 Example.db
    = (Returned (mkResponse "Passwords do not match" 400), Example.db).
Proof.
  split.
  - apply (proj1 (incomplete_form_is_refused _ _ _ _) "confirm_password");
      [|reflexivity].
    right. left. split; [reflexivity|]. by eexists.
  - apply (proj2 (incomplete_form_is_refused _ _ _ _) "new" "other" "1234");
      try reflexivity; try discriminate. by eexists.
Defined.





(** ** The view [add] *)

(** X5: two edges of the credential check of [add].  An [x-auth-token]
    header that is empty counts as no credential: 401, and keystone is not
    asked.  When the check of the token ends with an exception of keystoneauth
    other than [Unauthorized], [_check_admin_token] does not catch it and the
    view raises instead of answering 403.  Either way the body is not read and
    the database is as it was. *)
Theorem provisioning_credential_edges w request uid db :
  (headers request !! "x-auth-token" = Some EmptyString →
   add w request uid db = (Returned (mkResponse "Unauthorized" 401), db))
  ∧ (∀ t,
       headers request !! "x-auth-token" = Some t → t ≠ EmptyString →
       sess_get_token w t = RaisedOther →
       add w request uid db = (Raised KeystoneAuthError, db)).
Proof.
  split.
  - intros Hheader. unfold add. by rewrite Hheader.
  - intros t Hheader Ht Hreply. unfold add. rewrite Hheader. simpl.
    rewrite bool_decide_eq_false_2 by done.
    unfold mbind, py_bind, bind, _check_admin_token. by rewrite Hreply.
Qed.

Lemma provisioning_credential_edges_witness :
  add (Example.keystone 10)
      (mkRequest ∅ ∅ {[ "x-auth-token" := EmptyString ]} Malformed)
      "dave" Example.db
  = (Returned (mkResponse "Unauthorized" 401), Example.db)
  ∧ add (Example.keystone_away 10) (Example.put ∅) "dave" Example.db
    = (Raised KeystoneAuthError, Example.db).
Proof.
  split.
  - by apply provisioning_credential_edges.
  - by apply (proj2 (provisioning_credential_edges _ _ _ _) "admin").
Defined.

(** A token that no row has is found nowhere, and after it has been written
    to row [i] it is found there, while the token that row [i] had is gone. *)
Lemma find_token_fresh (l : list User) tok :
  tok ∉ token <$> l → list_find (λ x, token x = tok) l = None.
Proof.
  intros Hfresh. apply list_find_None, Forall_forall. intros x Hx <-.
  apply Hfresh. by apply list_elem_of_fmap_2.
Qed.

Lemma find_token_replaced (l : list User) i u u' :
  unique_tokens l → l !! i = Some u → token u' ∉ token <$> l →
  list_find (λ x, token x = token u') (<[i := u']> l) = Some (i, u')
  ∧ list_find (λ x, token x = token u) (<[i := u']> l) = None.
Proof.
  intros Huniq Hi Hfresh.
  assert (∀ j y, l !! j = Some y → token y ≠ token u') as Hother.
  { intros j y Hj Heq. apply Hfresh. rewrite <-Heq.
    by eapply list_elem_of_fmap_2, list_elem_of_lookup_2. }
  split.
  - apply list_find_Some. split_and!; [|done|].
    + apply list_lookup_insert_eq. by eapply lookup_lt_Some.
    + intros j y Hj Hlt. rewrite list_lookup_insert_ne in Hj by lia. eauto.
  - apply list_find_None, Forall_lookup. intros j y Hj Heq.
    apply list_lookup_insert_Some in Hj as [(_ & <- & _)|[Hne Hj]].
    + by eapply Hother.
    + apply Hne. symmetry.
      eapply (NoDup_lookup _ _ _ (token u) Huniq); rewrite list_lookup_fmap.
      * by rewrite Hj; simpl; rewrite Heq.
      * by rewrite Hi.
Qed.

(** X6: provisioning, by an admin, a [user_id] that has no record, with a
    body that has both ["pin"] and ["password"], appends one record and
    commits it; the rows that were there are untouched.  The record has the
    [user_id] of the URL, the PIN and the password of the body,
    [attempts = 0] and the time of the call, and when the uuid generator
    delivers a token no record has yet, the token in the response finds
    exactly this record, as does the [user_id]. *)
Theorem provision_new_then_find w request uid db t payload p pw :
  headers request !! "x-auth-token" = Some t → t ≠ EmptyString →
  _check_admin_token w t db = (Returned true, db) →
  data request = JsonObject payload →
  payload !! "pin" = Some p → payload !! "password" = Some pw →
  list_find (λ x, user_id x = uid) (session db) = None →
  uuid4 w ∉ token <$> session db →
  ∃ r db' u',
    add w request uid db = (Returned r, db')
    ∧ status r = 200%Z
    ∧ u' = mkUser uid (response r) p pw 0 (utcnow w)
    ∧ session db' = session db ++ [u']
    ∧ table db' = session db'
    ∧ list_find (λ x, token x = response r) (session db')
      = Some (length (session db), u')
    ∧ list_find (λ x, user_id x = uid) (session db')
      = Some (length (session db), u').
Proof.
  intros Hheader Ht Hadmin Hdata Hpin Hpw Hnone Hfresh.
  eexists _, _, _. split; [by eapply add_new|]. simpl.
  split_and!; [done..| |].
  - rewrite list_find_app_r by by apply find_token_fresh.
    simpl. by rewrite decide_True.
  - rewrite list_find_app_r by done.
    simpl. by rewrite decide_True.
Qed.

Lemma provision_new_then_find_witness :
  ∃ r db' u',
    add (Example.keystone 50)
        (Example.put {[ "pin" := "5555"; "password" := "old-d" ]})
        "dave" Example.db
    = (Returned r, db')
    ∧ status r = 200%Z
    ∧ u' = mkUser "dave" (response r) "5555" "old-d" 0 50
    ∧ session db' = session Example.db ++ [u']
    ∧ table db' = session db'
    ∧ list_find (λ x, token x = response r) (session db') = Some (3, u')
    ∧ list_find (λ x, user_id x = "dave") (session db') = Some (3, u').
Proof.
  apply (provision_new_then_find (Example.keystone 50)
           (Example.put {[ "pin" := "5555"; "password" := "old-d" ]})
           "dave" Example.db "admin"
           {[ "pin" := "5555"; "password" := "old-d" ]} "5555" "old-d").
  - reflexivity.
  - discriminate.
  - reflexivity.
  - reflexivity.
  - reflexivity.
  - reflexivity.
  - reflexivity.
  - compute_done.
Defined.

Lemma delete_appended (l : list User) x : delete (length l) (l ++ [x]) = l.
Proof. induction l as [|y l IH]; [done|]. simpl. by rewrite IH. Qed.

(** X7: a token that has just been provisioned for a new [user_id] redeems.
    With [max_attempts] not negative, a redemption of the token of the
    response with the PIN of the body, made no later than [token_expiration]
    seconds after the provisioning, passes the password of the body to
    keystone as the old password, and when keystone accepts the change the
    call returns and the table is back to the rows it had before the
    provisioning. *)
Theorem provisioned_token_redeems CONF w w' request uid db t payload p pw
    new_password :
  headers request !! "x-auth-token" = Some t → t ≠ EmptyString →
  _check_admin_token w t db = (Returned true, db) →
  data request = JsonObject payload →
  payload !! "pin" = Some p → payload !! "password" = Some pw →
  list_find (λ x, user_id x = uid) (session db) = None →
  uuid4 w ∉ token <$> session db →
  (0 ≤ max_attempts CONF)%Z →
  (utcnow w' - utcnow w ≤ token_expiration CONF * 1000000)%Z →
  (∃ status_code text,
     sess_post w' uid pw new_password = Responded status_code text
     ∧ (200 ≤ status_code ∧ status_code < 300)%Z) →
  (r ← add w request uid;
   _set_password CONF w' (response r) p new_password) db
  = (Returned (), mkDb (session db) (session db)).
Proof.
  intros Hheader Ht Hadmin Hdata Hpin Hpw Hnone Hfresh Hmax Htime Hpost.
  unfold mbind, py_bind, bind.
  rewrite (add_new _ _ _ _ t Hheader Ht Hadmin payload Hdata p pw) by done.
  set (u' := User_new (utcnow w) uid (uuid4 w) p pw).
  assert (list_find (λ x, token x = uuid4 w) (session db ++ [u'])
          = Some (length (session db), u')) as Hfind.
  { rewrite list_find_app_r by by apply find_token_fresh.
    simpl. by rewrite decide_True. }
  simpl.
  rewrite (set_password_done CONF w' (uuid4 w) p new_password
             (mkDb (session db ++ [u']) (session db ++ [u'])) _ u' Hfind);
    [|unfold locked; simpl; lia|done
     |unfold expired, total_seconds_gt; simpl; lia|done].
  cbn [session]. by rewrite delete_appended.
Qed.

Lemma provisioned_token_redeems_witness :
  (r ← add (Example.keystone 50)
           (Example.put {[ "pin" := "5555"; "password" := "old-d" ]}) "dave";
   _set_password Example.CONF (Example.keystone 60) (response r) "5555" "new")
    Example.db
  = (Returned (), Example.db).
Proof.
  apply (provisioned_token_redeems Example.CONF (Example.keystone 50)
           (Example.keystone 60)
           (Example.put {[ "pin" := "5555"; "password" := "old-d" ]})
           "dave" Example.db "admin"
           {[ "pin" := "5555"; "password" := "old-d" ]} "5555" "old-d" "new").
  - reflexivity.
  - discriminate.
  - reflexivity.
  - reflexivity.
  - reflexivity.
  - reflexivity.
  - reflexivity.
  - compute_done.
  - simpl. lia.
  - simpl. lia.
  - exists 204%Z, "No Content". split; [reflexivity|lia].
Defined.

(** X8: provisioning an existing [user_id] again replaces the token.  When
    the uuid generator delivers a token no record has yet, the token the
    record had before finds nothing any more, so every redemption with it
    raises [TokenNotFoundException], and the token of the response finds the
    rewritten record. *)
Theorem reprovisioning_replaces_token CONF w request db user u t payload :
  unique_tokens (session db) → unique_user_ids (session db) →
  session db !! user = Some u →
  headers request !! "x-auth-token" = Some t → t ≠ EmptyString →
  _check_admin_token w t db = (Returned true, db) →
  data request = JsonObject payload →
  uuid4 w ∉ token <$> session db →
  ∃ r db',
    add w request (user_id u) db = (Returned r, db')
    ∧ list_find (λ x, token x = response r) (session db')
      = Some (user, reprovisioned w payload u)
    ∧ (∀ w' p new_password,
         _set_password CONF w' (token u) p new_password db'
         = (Raised TokenNotFoundException, db')).
Proof.
  intros Htok Huid Hrow Hheader Ht Hadmin Hdata Hfresh.
  pose proof (find_unique user_id _ _ _ Huid Hrow) as Hfind.
  destruct (find_token_replaced (session db) user u (reprovisioned w payload u)
              Htok Hrow Hfresh) as [Hnew Hold].
  eexists _, _. split; [by eapply add_existing|]. split; [done|].
  intros w' p new_password. by apply set_password_not_found.
Qed.

Lemma reprovisioning_replaces_token_witness :
  ∃ r db',
    add (Example.keystone 50) (Example.put ∅) "bob" Example.db
    = (Returned r, db')
    ∧ list_find (λ x, token x = response r) (session db')
      = Some (1, mkUser "bob" "T-new" "4321" "old-b" 0 50)
    ∧ _set_password Example.CONF (Example.keystone 60) "T-bob" "4321" "new" db'
      = (Raised TokenNotFoundException, db').
Proof.
  destruct (reprovisioning_replaces_token Example.CONF (Example.keystone 50)
              (Example.put ∅) Example.db 1 Example.bob "admin" ∅)
    as (r & db' & Hadd & Hfind & Hold).
  - apply example_unique_tokens.
  - apply example_unique_user_ids.
  - reflexivity.
  - reflexivity.
  - discriminate.
  - reflexivity.
  - reflexivity.
  - compute_done.
  - exists r, db'. split_and!; [exact Hadd|exact Hfind|apply Hold].
Defined.

(** X9: provisioning again is what lifts a lockout and renews an expired
    token.  Whatever [attempts] and [updated_at] the record had, with
    [max_attempts] not negative a redemption of the token of the response,
    with the PIN now stored and no later than [token_expiration] seconds
    after the provisioning, is let through to keystone, with the password
    now stored as the old one, and when keystone accepts the change the
    record is consumed. *)
Theorem reprovisioning_unlocks CONF w w' request db user u t payload
    new_password :
  unique_tokens (session db) → unique_user_ids (session db) →
  session db !! user = Some u →
  headers request !! "x-auth-token" = Some t → t ≠ EmptyString →
  _check_admin_token w t db = (Returned true, db) →
  data request = JsonObject payload →
  uuid4 w ∉ token <$> session db →
  (0 ≤ max_attempts CONF)%Z →
  (utcnow w' - utcnow w ≤ token_expiration CONF * 1000000)%Z →
  (∃ status_code text,
     sess_post w' (user_id u) (default (password u) (payload !! "password"))
               new_password
     = Responded status_code text
     ∧ (200 ≤ status_code ∧ status_code < 300)%Z) →
  (r ← add w request (user_id u);
   _set_password CONF w' (response r) (default (pin u) (payload !! "pin"))
                 new_password) db
  = (Returned (), mkDb (delete user (session db)) (delete user (session db))).
Proof.
  intros Htok Huid Hrow Hheader Ht Hadmin Hdata Hfresh Hmax Htime Hpost.
  pose proof (find_unique user_id _ _ _ Huid Hrow) as Hfind.
  destruct (find_token_replaced (session db) user u (reprovisioned w payload u)
              Htok Hrow Hfresh) as [Hnew _].
  unfold mbind, py_bind, bind.
  rewrite (add_existing _ _ _ _ t Hheader Ht Hadmin payload Hdata user u Hfind).
  set (l := <[user := reprovisioned w payload u]> (session db)) in *.
  rewrite (set_password_done CONF w' (uuid4 w) _ new_password (mkDb l l)
             user (reprovisioned w payload u) Hnew);
    [|unfold locked; simpl; lia|done
     |unfold expired, total_seconds_gt; simpl; lia|done].
  simpl. subst l. do 2 f_equal.
  - apply list_eq. intros j. destruct (decide (j < user)).
    + by rewrite !list_lookup_delete_lt, list_lookup_insert_ne by lia.
    + by rewrite !list_lookup_delete_ge, list_lookup_insert_ne by lia.
  - apply list_eq. intros j. destruct (decide (j < user)).
    + by rewrite !list_lookup_delete_lt, list_lookup_insert_ne by lia.
    + by rewrite !list_lookup_delete_ge, list_lookup_insert_ne by lia.
Qed.

Lemma reprovisioning_unlocks_witness :
  locked Example.CONF Example.bob
  ∧ expired Example.CONF (Example.keystone Example.late) Example.bob
  ∧ (r ← add (Example.keystone Example.late)
             (Example.put {[ "pin" := "7777" ]}) "bob";
     _set_password Example.CONF (Example.keystone (Example.late + 10))
                   (response r) "7777" "new") Example.db
    = (Returned (),
       mkDb [Example.alice; Example.carol] [Example.alice; Example.carol]).
Proof.
  split_and!.
  - unfold locked. simpl. lia.
  - unfold expired, total_seconds_gt. simpl. unfold Example.late. lia.
  - assert (uuid4 (Example.keystone Example.late)
            ∉ token <$> session Example.db) as Hfresh by compute_done.
    assert (∃ status_code text,
              sess_post (Example.keystone (Example.late + 10))
                        (user_id Example.bob)
                        (default (password Example.bob)
                           (({[ "pin" := "7777" ]} : gmap string string)
                              !! "password"))
                        "new"
              = Responded status_code text
              ∧ (200 ≤ status_code ∧ status_code < 300)%Z) as Hpost.
    { exists 204%Z, "No Content". split; [reflexivity|lia]. }
    exact (reprovisioning_unlocks Example.CONF
             (Example.keystone Example.late)
             (Example.keystone (Example.late + 10))
             (Example.put {[ "pin" := "7777" ]}) Example.db 1 Example.bob
             "admin" {[ "pin" := "7777" ]} "new"
             example_unique_tokens example_unique_user_ids eq_refl eq_refl
             ltac:(discriminate) eq_refl eq_refl Hfresh
             ltac:(simpl; lia) ltac:(simpl; lia) Hpost).
Defined.

(** ** What the calls keep *)

(** X10: a call of [_set_password], whatever its arguments and its outcome,
    keeps [token] and [user_id] unique and leaves nothing uncommitted; it
    never adds a row, and it removes one, exactly one, precisely when it
    returns. *)
Theorem redemption_keeps_invariants CONF w tok p new_password db o db' :
  unique_tokens (session db) → unique_user_ids (session db) →
  table db = session db →
  _set_password CONF w tok p new_password db = (o, db') →
  unique_tokens (session db') ∧ unique_user_ids (session db')
  ∧ table db' = session db'
  ∧ (o = Returned () → S (length (session db')) = length (session db))
  ∧ (o ≠ Returned () → length (session db') = length (session db)).
Proof.
  intros Htok Huid Hclean Hcall.
  pose proof (set_password_redeemed CONF w tok p new_password db) as Hpath.
  rewrite Hcall in Hpath. simpl in Hpath.
  destruct (redeemed_invariants _ _ _ _ _ _ _ _ Hpath Htok Huid Hclean)
    as (? & ? & ?).
  split_and!; [done..| |].
  - intros ->. inversion Hpath as [| | | | | |user u Hfind]; subst. simpl.
    apply list_find_Some in Hfind as (Hrow & _).
    rewrite length_delete by eauto.
    apply lookup_lt_Some in Hrow. lia.
  - intros Hne. inversion Hpath; subst; try done.
    simpl. by rewrite length_alter.
Qed.

Lemma redemption_keeps_invariants_witness :
  unique_tokens [Example.bob; Example.carol]
  ∧ unique_user_ids [Example.bob; Example.carol]
  ∧ S (length [Example.bob; Example.carol]) = length (session Example.db).
Proof.
  destruct (redemption_keeps_invariants Example.CONF (Example.keystone 10)
              "T-alice" "1234" "new" Example.db (Returned ())
              (mkDb [Example.bob; Example.carol]
                    [Example.bob; Example.carol]))
    as (Htok & Huid & _ & Hless & _).
  - apply example_unique_tokens.
  - apply example_unique_user_ids.
  - reflexivity.
  - vm_compute. reflexivity.
  - split_and!; [exact Htok|exact Huid|by apply Hless].
Defined.

(** The ways [add] leaves the database: untouched, one row rewritten in
    place, or one row appended. *)
Lemma add_cases w request uid db :
  (add w request uid db).2 = db
  ∨ (∃ user u u',
       list_find (λ x, user_id x = uid) (session db) = Some (user, u)
       ∧ (add w request uid db).2
         = mkDb (<[user := u']> (session db)) (<[user := u']> (session db)))
  ∨ (∃ u',
       list_find (λ x, user_id x = uid) (session db) = None
       ∧ (add w request uid db).2
         = mkDb (session db ++ [u']) (session db ++ [u'])).
Proof.
  unfold add. destruct (headers request !! "x-auth-token") as [t|]; [|by left].
  simpl. case_bool_decide; [by left|]. py_unfold.
  destruct (sess_get_token w t); simpl; [|by left..].
  destruct (data request) as [|payload]; simpl; [by left|].
  destruct (list_find _ (session db)) as [[user u]|] eqn:Hfind.
  - right. left. apply list_find_Some in Hfind as Hrow.
    destruct Hrow as (Hrow & _). exists user, u.
    destruct (payload !! "pin") as [v|], (payload !! "password") as [v'|];
      simpl;
      rewrite ?(alter_row _ _ _ _ Hrow), ?(alter_insert_row _ _ _ _ _ Hrow);
      eauto.
  - destruct (payload !! "pin") as [v|]; simpl; [|by left].
    destruct (payload !! "password") as [v'|]; simpl; [|by left].
    right. right. eauto.
Qed.

(** X11: a call of [add], whatever the request and its outcome, keeps
    [token] and [user_id] unique and leaves nothing uncommitted, provided the
    uuid generator delivers a token that no record has; it never removes a
    row, adds at most one, and none when the [user_id] already has a record:
    no [user_id] gets a second record. *)
Theorem provisioning_keeps_invariants w request uid db :
  unique_tokens (session db) → unique_user_ids (session db) →
  table db = session db →
  uuid4 w ∉ token <$> session db →
  unique_tokens (session (add w request uid db).2)
  ∧ unique_user_ids (session (add w request uid db).2)
  ∧ table (add w request uid db).2 = session (add w request uid db).2
  ∧ length (session db) ≤ length (session (add w request uid db).2)
    ≤ S (length (session db))
  ∧ (is_Some (list_find (λ x, user_id x = uid) (session db)) →
     length (session (add w request uid db).2) = length (session db)).
Proof.
  intros Htok Huid Hclean Hfresh.
  destruct (add_invariants w request uid db Htok Huid Hclean Hfresh)
    as (? & ? & ?).
  split_and!; [done..| | |].
  - destruct (add_cases w request uid db)
      as [->|[(? & ? & ? & _ & ->)|(? & _ & ->)]]; simpl;
      rewrite ?length_insert, ?length_app; simpl; lia.
  - destruct (add_cases w request uid db)
      as [->|[(? & ? & ? & _ & ->)|(? & _ & ->)]]; simpl;
      rewrite ?length_insert, ?length_app; simpl; lia.
  - intros [? Hsome].
    destruct (add_cases w request uid db)
      as [->|[(? & ? & ? & _ & ->)|(? & Hnone & _)]]; simpl;
      rewrite ?length_insert; congruence.
Qed.

Lemma provisioning_keeps_invariants_witness :
  unique_tokens
    (session (add (Example.keystone 50) (Example.put ∅) "bob" Example.db).2)
  ∧ unique_user_ids
      (session (add (Example.keystone 50) (Example.put ∅) "bob" Example.db).2)
  ∧ length
      (session (add (Example.keystone 50) (Example.put ∅) "bob" Example.db).2)
    = 3.
Proof.
  destruct (provisioning_keeps_invariants (Example.keystone 50)
              (Example.put ∅) "bob" Example.db)
    as (Htok & Huid & _ & _ & Hsame).
  - apply example_unique_tokens.
  - apply example_unique_user_ids.
  - reflexivity.
  - compute_done.
  - split_and!; [exact Htok|exact Huid|].
    apply Hsame. by eexists.
Defined.

(** ** The view [reset_password] *)

(** The form passes the checks of [reset_password]: the four fields are
    there and not empty, both addresses agree, and the PIN has four
    characters, all digits. *)
Lemma reset_password_checks isdigit_char helpdesk request name email p :
  form request !! "name" = Some name →
  form request !! "email" = Some email →
  form request !! "confirm_email" = Some email →
  form request !! "pin" = Some p →
  name ≠ EmptyString → email ≠ EmptyString →
  String.length p = 4 →
  forallb isdigit_char (String.list_ascii_of_string p) = true →
  reset_password isdigit_char helpdesk request
  = match helpdesk (mkTicket name email p) with
    | Raised e => ([mkTicket name email p], Raised e)
    | Returned _ =>
        ([mkTicket name email p],
         Returned
           (mkResponse "The request has been forwarded to the helpdesk." 200))
    end.
Proof.
  intros Hname Hemail Hconfirm Hpin Hn He Hlen Hdigits.
  unfold reset_password. rewrite Hname, Hemail, Hconfirm, Hpin. simpl.
  assert (p ≠ EmptyString) as Hp by (by intros ->).
  rewrite !bool_decide_eq_false_2 by done. simpl.
  rewrite decide_False by (by intros H; apply H).
  rewrite Hlen. simpl. unfold isdigit. destruct p; [done|].
  by rewrite Hdigits.
Qed.




(** ** More on redemption *)

(** X14: what the view [set_password] can answer, and when it writes.  A
    response has one of the statuses 200, 400, 403, 404 and 500; the only
    exceptions that leave the view are [BadRequestKeyError], for a missing
    field, and what keystoneauth raises.  The database is changed by two
    answers only: 200 "Password set." and 403 "Wrong pin". *)
Theorem set_password_answers CONF w request db o db' :
  set_password CONF w request db = (o, db') →
  (db' = db
   ∨ o = Returned (mkResponse "Password set." 200)
   ∨ o = Returned (mkResponse "Wrong pin" 403))
  ∧ match o with
    | Returned r => status r ∈ [200; 400; 403; 404; 500]%Z
    | Raised e => (∃ key, e = BadRequestKeyError key) ∨ e = KeystoneAuthError
    end.
Proof.
  unfold set_password, form_item.
  unfold mbind, py_bind, bind, mret, py_ret, ret, raise, try_except.
  destruct (form request !! "password") as [new_password|];
    [|intros [= <- <-]; split; [by left|left; by eexists]].
  destruct (form request !! "confirm_password") as [confirm_password|];
    [|intros [= <- <-]; split; [by left|left; by eexists]].
  destruct (form request !! "pin") as [p|];
    [|intros [= <- <-]; split; [by left|left; by eexists]].
  destruct (_ || _);
    [intros [= <- <-]; split; [by left|set_solver]|].
  destruct (decide (new_password ≠ confirm_password));
    [intros [= <- <-]; split; [by left|set_solver]|].
  pose proof (set_password_redeemed CONF w
                (default EmptyString (args request !! "token")) p
                new_password db) as Hpath.
  destruct (_set_password _ _ _ _ _ db) as [[[]|e] db1]; simpl in Hpath.
  - intros [= <- <-]. split; [by right; left|set_solver].
  - inversion Hpath; subst; simpl; intros [= <- <-];
      (split; [by auto|first [set_solver|by right]]).
Qed.

Lemma set_password_answers_witness :
  (mkDb [set_attempts 1 Example.alice; Example.bob; Example.carol]
        [set_attempts 1 Example.alice; Example.bob; Example.carol]
   = Example.db
   ∨ Returned (mkResponse "Wrong pin" 403)
     = Returned (mkResponse "Password set." 200)
   ∨ Returned (mkResponse "Wrong pin" 403)
     = Returned (mkResponse "Wrong pin" 403))
  ∧ (403 ∈ [200; 400; 403; 404; 500])%Z.
Proof.
  apply (set_password_answers Example.CONF (Example.keystone 10)
           (redeem_request "T-alice" "9999" "new") Example.db
           (Returned (mkResponse "Wrong pin" 403))
           (mkDb [set_attempts 1 Example.alice; Example.bob; Example.carol]
                 [set_attempts 1 Example.alice; Example.bob; Example.carol])).
  vm_compute. reflexivity.
Defined.

(** X15: no redemption lifts a lockout.  Against a record with
    [attempts > max_attempts], every attempt of any sequence of redemptions
    of its token, whatever their PINs, passwords and moments, raises
    [AccountLocked], and the database at the end is the one at the start. *)
Theorem lockout_is_permanent CONF db user u (tries : list Attempt) :
  unique_tokens (session db) →
  session db !! user = Some u →
  locked CONF u →
  run (redeem CONF (token u) <$> tries) db
  = (replicate (length tries) (Raised AccountLocked), db).
Proof.
  intros Huniq Hrow Hlocked.
  pose proof (find_unique token _ _ _ Huniq Hrow) as Hfind.
  induction tries as [|a tries IH]; [done|].
  assert (redeem CONF (token u) a db = (Raised AccountLocked, db)) as Hstep.
  { by apply (set_password_locked _ _ _ _ _ _ _ _ Hfind). }
  rewrite fmap_cons, run_cons, Hstep. cbn [fst snd]. by rewrite IH.
Qed.

Lemma lockout_is_permanent_witness :
  run (redeem Example.CONF "T-bob"
         <$> [mkAttempt (Example.keystone 1) "4321" "new";
              mkAttempt (Example.keystone 2) "9999" "new";
              mkAttempt (Example.keystone Example.late) "4321" "new"])
      Example.db
  = (replicate 3 (Raised AccountLocked), Example.db).
Proof.
  apply (lockout_is_permanent Example.CONF Example.db 1 Example.bob
           [mkAttempt (Example.keystone 1) "4321" "new";
            mkAttempt (Example.keystone 2) "9999" "new";
            mkAttempt (Example.keystone Example.late) "4321" "new"]).
  - apply example_unique_tokens.
  - reflexivity.
  - unfold locked. simpl. lia.
Defined.

(** Deleting a row that does not have the key leaves what the key finds. *)
Lemma find_delete_other {K} `{EqDecision K} (key : User → K) (k : K)
    (l : list User) : ∀ i x,
  l !! i = Some x → key x ≠ k →
  snd <$> list_find (λ y, key y = k) (delete i l)
  = snd <$> list_find (λ y, key y = k) l.
Proof.
  induction l as [|y l IH]; intros [|i] x Hi Hx; simplify_eq/=.
  - rewrite decide_False by done.
    by destruct (list_find _ l) as [[??]|].
  - case_decide; [done|]. specialize (IH i x Hi Hx).
    destruct (list_find _ (delete i l)) as [[??]|],
             (list_find _ l) as [[??]|]; simplify_eq/=; done.
Qed.

(** X16: a redemption touches no record but the one of its token.  Whatever
    the call of [_set_password] for a token does (count a wrong PIN, delete
    the record, or nothing), every other token finds afterwards the record
    it found before, with every field as it was. *)
Theorem redemption_touches_only_its_record CONF w tok p new_password db tok' :
  tok' ≠ tok →
  snd <$> list_find (λ x, token x = tok')
            (session (_set_password CONF w tok p new_password db).2)
  = snd <$> list_find (λ x, token x = tok') (session db).
Proof.
  intros Hne.
  pose proof (set_password_redeemed CONF w tok p new_password db) as Hpath.
  destruct Hpath as [ | | user u Hfind | | | | user u Hfind]; try done; simpl;
    apply list_find_Some in Hfind as (Hrow & Htok & _).
  - rewrite (find_alter token) by done.
    destruct (list_find _ (session db)) as [[j x]|] eqn:Hfind'; [|done].
    simpl. apply list_find_Some in Hfind' as (Hj & Hx & _).
    rewrite decide_False; [done|]. intros ->. congruence.
  - apply (find_delete_other token tok' _ user u); congruence.
Qed.

Lemma redemption_touches_only_its_record_witness :
  snd <$> list_find (λ x, token x = "T-bob")
            (session (_set_password Example.CONF (Example.keystone 10)
                                    "T-alice" "1234" "new" Example.db).2)
  = Some Example.bob.
Proof.
  rewrite (redemption_touches_only_its_record Example.CONF
             (Example.keystone 10) "T-alice" "1234" "new" Example.db "T-bob")
    by discriminate.
  reflexivity.
Defined.

End Setpass.
